(** * Verification of the real-time correlation core of the AI detection agent

    Shallow embedding of
      - [backend/src/services/ai/BehavioralAnalytics.ts]
      - [backend/src/services/ai/GraphCorrelationEngine.ts]
      - [backend/src/services/ai/DetectionAgent.ts] (with the LLM service that
        the same file carries)

    Modelling conventions.
      - A JavaScript [number] is an exact rational ([Q]); rounding, [NaN] and
        the infinities are outside the model.  Every division the modelled
        code performs is either guarded by the code itself or has a divisor
        that is shown to be positive.
      - Counters ([length], true/false positive counts) are [nat].
      - A [Map] that the code iterates is an insertion-ordered association
        list; a [Map] or [Set] that is only probed is a [gmap] or [gset].
      - A [Date] is reduced to the readings the code takes from it
        ([getTime], [getHours], [getDay]).
      - External collaborators (graph database, language model, knowledge
        base) are Section variables.  Writes to the persistence layer
        ([database.storeBaseline], [knowledgeBase.updateRule]) are taken to
        succeed; the in-memory maps are the state.
      - Formatted strings (descriptions, recommendations, log lines) are
        left out. *)

From Stdlib Require Import Ascii String QArith Qminmax Qabs Qpower Lqa.
From stdpp Require Import base option list gmap strings.

#[local] Set Warnings "-clear-no-such-hyp".

Local Open Scope string_scope.
Local Open Scope list_scope.
Local Open Scope Q_scope.

(** ** JavaScript numbers *)

Module JsNum.

(** [a > b] on numbers. *)
Definition gtb (a b : Q) : bool := negb (Qle_bool a b).

(** [a < b] on numbers. *)
Definition ltb (a b : Q) : bool := negb (Qle_bool b a).

(** [a >= b] on numbers. *)
Definition geb (a b : Q) : bool := Qle_bool b a.

Definition ofNat (n : nat) : Q := inject_Z (Z.of_nat n).

(** [xs.reduce((sum, x) => sum + f(x), 0)]. *)
Definition sumBy {A} (f : A -> Q) (xs : list A) : Q :=
  fold_left (fun sum x => sum + f x) xs 0.

End JsNum.

(** ** Shared data model ([@/types]) *)

(** What the code reads off a [Date]: [getTime()], [getHours()] and
    [getDay()]. *)
Record Timestamp := mkTimestamp {
  getTime : Z;
  getHours : nat;
  getDay : nat;
}.

Record EntityInfo := mkEntityInfo {
  ent_id : string;
  ent_name : string;
  ent_type : string;
}.

Record EventEntities := mkEventEntities {
  users : list EntityInfo;
  hosts : list EntityInfo;
  networks : list EntityInfo;
  processes : list EntityInfo;
  files : list EntityInfo;
}.

Record SecurityEvent := mkSecurityEvent {
  ev_id : string;
  ev_eventType : string;
  ev_timestamp : Timestamp;
  ev_entities : EventEntities;   (* normalizedData.entities *)
  ev_riskScore : Q;              (* normalizedData.risk.score *)
}.

(** [Object.entries(event.normalizedData.entities)], in the order in which
    the normaliser declares the five keys. *)
Definition entityEntries (event : SecurityEvent)
  : list (string * list EntityInfo) :=
  let es := ev_entities event in
  [ ("users", users es); ("hosts", hosts es); ("networks", networks es);
    ("processes", processes es); ("files", files es) ].

(** The two nested [for ... of] loops over the entries, flattened: every
    entity occurrence together with the key it is listed under. *)
Definition entityOccurrences (event : SecurityEvent)
  : list (string * EntityInfo) :=
  concat (map (fun kv => map (fun e => (fst kv, e)) (snd kv))
              (entityEntries event)).

(** Outcome of a call that may throw. *)
Inductive Result (A : Type) : Type :=
| Ok (a : A)
| Throw (message : string).
Arguments Ok {A} a.
Arguments Throw {A} message.

Record TimingPattern := mkTimingPattern {
  businessHours : nat;
  afterHours : nat;
  weekends : nat;
  holidays : nat;
  peakHours : list nat;
}.

Record BehaviorPattern := mkBehaviorPattern {
  pat_type : string;
  frequency : Q;
  timing : TimingPattern;
  context : list string;
  variance : Q;
}.

(** [metrics] (which needs [Math.sqrt]) and [lastUpdated] (the wall clock)
    are not modelled; nothing below reads them. *)
Record BehavioralBaseline := mkBehavioralBaseline {
  entityId : string;
  entityType : string;
  patterns : list BehaviorPattern;
  confidence : Q;
}.

(** ** BehavioralAnalytics.ts *)

Module Behavioral.

Record BehavioralConfig := mkBehavioralConfig {
  anomalyThreshold : Q;
  learningRate : Q;
}.

Record BehaviorAnomaly := mkBehaviorAnomaly {
  an_type : string;
  an_severity : Q;
  an_confidence : Q;
  an_deviation : option Q;
  an_baseline : Q;
  an_current : Q;
  an_timeframe : string;
}.

Record PatternAnalysis := mkPatternAnalysis {
  isAnomaly : bool;
  pa_severity : Q;
  pa_confidence : Q;
  (** [None] stands for the non-finite number the code gets when it
      divides by a zero mean. *)
  pa_deviation : option Q;
}.

Record EntityAnalysis := mkEntityAnalysis {
  ea_anomalies : list BehaviorAnomaly;
  ea_riskScore : Q;
  ea_confidence : Q;
}.

(** [baselineComparison] and [recommendations] are derived from the
    fields below and are not modelled. *)
Record BehavioralResult := mkBehavioralResult {
  anomalies : list BehaviorAnomaly;
  riskScore : Q;
  br_confidence : Q;
}.

(** The service object: the [baselines] map and the [isInitialized] flag. *)
Record Service := mkService {
  baselines : gmap string BehavioralBaseline;
  isInitialized : bool;
}.

Definition extractPatternValue (event : SecurityEvent) (patternType : string) : Q :=
  let es := ev_entities event in
  if String.eqb patternType "login_pattern" then JsNum.ofNat (length (users es))
  else if String.eqb patternType "data_access" then JsNum.ofNat (length (files es))
  else if String.eqb patternType "network_communication" then JsNum.ofNat (length (networks es))
  else if String.eqb patternType "file_operations" then JsNum.ofNat (length (files es))
  else if String.eqb patternType "process_execution" then JsNum.ofNat (length (processes es))
  else if String.eqb patternType "privilege_escalation" then ev_riskScore event
  else 1.

(** The local [zScore] of [analyzePattern]. *)
Definition zScore (pattern : BehaviorPattern) (currentValue : Q) : Q :=
  let mean := frequency pattern in
  let stdDev := variance pattern in
  if JsNum.gtb stdDev 0 then Qabs (currentValue - mean) / stdDev else 0.

Definition analyzePattern (config : BehavioralConfig)
    (pattern : BehaviorPattern) (currentValue : Q) : PatternAnalysis :=
  let mean := frequency pattern in
  let stdDev := variance pattern in
  let z := zScore pattern currentValue in
  {| isAnomaly := JsNum.gtb z (anomalyThreshold config);
     pa_severity := Qmin 1 (z / 3);
     pa_confidence := Qmin 1 (frequency pattern / 100);
     pa_deviation :=
       if JsNum.gtb stdDev 0
       then (if Qeq_bool mean 0 then None
             else Some (Qabs (currentValue - mean) / mean * 100))
       else Some 0 |}.

Definition getTimeframe (t : Timestamp) : string :=
  let hour := getHours t in
  if (6 <=? hour)%nat && (hour <? 12)%nat then "morning"
  else if (12 <=? hour)%nat && (hour <? 18)%nat then "afternoon"
  else if (18 <=? hour)%nat && (hour <? 22)%nat then "evening"
  else "night".

Definition emptyTiming : TimingPattern :=
  {| businessHours := 0; afterHours := 0; weekends := 0; holidays := 0;
     peakHours := [] |}.

Definition initialPattern (t : string) : BehaviorPattern :=
  {| pat_type := t; frequency := 0; timing := emptyTiming; context := [];
     variance := 0 |}.

Definition initializePatterns : list BehaviorPattern :=
  map initialPattern
    [ "login_pattern"; "data_access"; "network_communication";
      "file_operations"; "process_execution" ].

(** The baseline object that [createInitialBaseline] builds. *)
Definition initialBaseline (entityId entityType : string) : BehavioralBaseline :=
  {| entityId := entityId; entityType := entityType;
     patterns := initializePatterns; confidence := 1 # 10 |}.

(** [createInitialBaseline]: [this.baselines.set(entityId, baseline)]. *)
Definition createInitialBaseline (entityId entityType : string)
    (store : gmap string BehavioralBaseline) : gmap string BehavioralBaseline :=
  <[entityId := initialBaseline entityId entityType]> store.

(** Accumulator of the pattern loop of [analyzeEntityBehavior]:
    anomalies, totalRiskScore, totalConfidence, analysisCount. *)
Definition analyzeStep (config : BehavioralConfig) (event : SecurityEvent)
    (acc : list BehaviorAnomaly * Q * Q * nat) (pattern : BehaviorPattern)
  : list BehaviorAnomaly * Q * Q * nat :=
  let '(anoms, totalRiskScore, totalConfidence, analysisCount) := acc in
  let currentValue := extractPatternValue event (pat_type pattern) in
  let analysis := analyzePattern config pattern currentValue in
  if isAnomaly analysis then
    (anoms ++ [ {| an_type := pat_type pattern;
                   an_severity := pa_severity analysis;
                   an_confidence := pa_confidence analysis;
                   an_deviation := pa_deviation analysis;
                   an_baseline := frequency pattern;
                   an_current := currentValue;
                   an_timeframe := getTimeframe (ev_timestamp event) |} ],
     totalRiskScore + pa_severity analysis * pa_confidence analysis,
     totalConfidence + pa_confidence analysis,
     S analysisCount)
  else acc.

Definition noAnomalies : EntityAnalysis :=
  {| ea_anomalies := []; ea_riskScore := 0; ea_confidence := 0 |}.

Definition analyzeEntityBehavior (config : BehavioralConfig)
    (entity : EntityInfo) (event : SecurityEvent)
    (store : gmap string BehavioralBaseline)
  : EntityAnalysis * gmap string BehavioralBaseline :=
  match store !! ent_id entity with
  | None =>
      (noAnomalies, createInitialBaseline (ent_id entity) (ent_type entity) store)
  | Some baseline =>
      let '(anoms, totalRiskScore, totalConfidence, analysisCount) :=
        fold_left (analyzeStep config event) (patterns baseline) ([], 0, 0, 0%nat) in
      ({| ea_anomalies := anoms;
          ea_riskScore :=
            if (0 <? analysisCount)%nat
            then totalRiskScore / JsNum.ofNat analysisCount else 0;
          ea_confidence :=
            if (0 <? analysisCount)%nat
            then totalConfidence / JsNum.ofNat analysisCount else 0 |},
       store)
  end.

(** Accumulator of the entity loop of [analyzeEvent], threaded together
    with the baseline map. *)
Definition analyzeEventStep (config : BehavioralConfig) (event : SecurityEvent)
    (acc : list BehaviorAnomaly * Q * Q * nat * gmap string BehavioralBaseline)
    (occ : string * EntityInfo)
  : list BehaviorAnomaly * Q * Q * nat * gmap string BehavioralBaseline :=
  let '(anoms, totalRiskScore, totalConfidence, analysisCount, store) := acc in
  let '(entityAnalysis, store') :=
    analyzeEntityBehavior config (snd occ) event store in
  if (0 <? length (ea_anomalies entityAnalysis))%nat then
    (anoms ++ ea_anomalies entityAnalysis,
     totalRiskScore + ea_riskScore entityAnalysis,
     totalConfidence + ea_confidence entityAnalysis,
     S analysisCount, store')
  else (anoms, totalRiskScore, totalConfidence, analysisCount, store').

Definition analyzeEvent (config : BehavioralConfig) (event : SecurityEvent)
    (svc : Service) : Result BehavioralResult * Service :=
  if negb (isInitialized svc) then
    (Throw "Behavioral Analytics not initialized", svc)
  else
    let '(anoms, totalRiskScore, totalConfidence, analysisCount, store) :=
      fold_left (analyzeEventStep config event) (entityOccurrences event)
                ([], 0, 0, 0%nat, baselines svc) in
    (Ok {| anomalies := anoms;
           riskScore :=
             if (0 <? analysisCount)%nat
             then totalRiskScore / JsNum.ofNat analysisCount else 0;
           br_confidence :=
             if (0 <? analysisCount)%nat
             then totalConfidence / JsNum.ofNat analysisCount else 0 |},
     {| baselines := store; isInitialized := isInitialized svc |}).

Definition updateTimingPattern (t : TimingPattern) (ts : Timestamp) : TimingPattern :=
  let hour := getHours ts in
  let day := getDay ts in
  let isWeekend := (day =? 0)%nat || (day =? 6)%nat in
  let isBusinessHours := (9 <=? hour)%nat && (hour <=? 17)%nat in
  let peak := if existsb (Nat.eqb hour) (peakHours t)
              then peakHours t else peakHours t ++ [hour] in
  if isBusinessHours && negb isWeekend then
    {| businessHours := S (businessHours t); afterHours := afterHours t;
       weekends := weekends t; holidays := holidays t; peakHours := peak |}
  else if negb isBusinessHours && negb isWeekend then
    {| businessHours := businessHours t; afterHours := S (afterHours t);
       weekends := weekends t; holidays := holidays t; peakHours := peak |}
  else if isWeekend then
    {| businessHours := businessHours t; afterHours := afterHours t;
       weekends := S (weekends t); holidays := holidays t; peakHours := peak |}
  else
    {| businessHours := businessHours t; afterHours := afterHours t;
       weekends := weekends t; holidays := holidays t; peakHours := peak |}.

(** Body of the pattern loop of [updateEntityBaseline]. *)
Definition updatePattern (config : BehavioralConfig) (event : SecurityEvent)
    (pattern : BehaviorPattern) : BehaviorPattern :=
  let currentValue := extractPatternValue event (pat_type pattern) in
  let frequency' :=
    (1 - learningRate config) * frequency pattern
    + learningRate config * currentValue in
  let deviation := Qabs (currentValue - frequency') in
  let variance' :=
    (1 - learningRate config) * variance pattern
    + learningRate config * deviation in
  {| pat_type := pat_type pattern; frequency := frequency';
     timing := updateTimingPattern (timing pattern) (ev_timestamp event);
     context := context pattern; variance := variance' |}.

(** The baseline object after [updateEntityBaseline] has mutated it. *)
Definition updatedBaseline (config : BehavioralConfig) (event : SecurityEvent)
    (baseline : BehavioralBaseline) : BehavioralBaseline :=
  {| entityId := entityId baseline; entityType := entityType baseline;
     patterns := map (updatePattern config event) (patterns baseline);
     confidence := Qmin 1 (confidence baseline + (1 # 100)) |}.

(** [updateEntityBaseline] on the object found under [key]: the object is
    mutated in place (so the entry under [key] changes) and is then stored
    again under its own [entityId]. *)
Definition updateEntityBaseline (config : BehavioralConfig) (event : SecurityEvent)
    (key : string) (baseline : BehavioralBaseline)
    (store : gmap string BehavioralBaseline) : gmap string BehavioralBaseline :=
  let baseline' := updatedBaseline config event baseline in
  <[entityId baseline' := baseline']> (<[key := baseline']> store).

(** Body of the entity loop of [updateBaseline]. *)
Definition updateBaselineStep (config : BehavioralConfig) (event : SecurityEvent)
    (store : gmap string BehavioralBaseline) (occ : string * EntityInfo)
  : gmap string BehavioralBaseline :=
  let entityId := ent_id (snd occ) in
  let store1 :=
    match store !! entityId with
    | Some _ => store
    | None => createInitialBaseline entityId (fst occ) store
    end in
  match store1 !! entityId with
  | Some baseline => updateEntityBaseline config event entityId baseline store1
  | None => store1
  end.

Definition updateBaseline (config : BehavioralConfig) (event : SecurityEvent)
    (svc : Service) : Service :=
  {| baselines :=
       fold_left (updateBaselineStep config event) (entityOccurrences event)
                 (baselines svc);
     isInitialized := isInitialized svc |}.

(** [processFeedback]: a false positive lowers the confidence of the
    entity's baseline by 0.05, not below 0.1. *)
Definition processFeedback (feedbackEntityId : option string)
    (isFalsePositive : bool) (svc : Service) : Service :=
  match feedbackEntityId with
  | Some eid =>
      if String.eqb eid "" then svc
      else if isFalsePositive then
        match baselines svc !! eid with
        | Some baseline =>
            {| baselines :=
                 <[eid := {| entityId := entityId baseline;
                             entityType := entityType baseline;
                             patterns := patterns baseline;
                             confidence :=
                               Qmax (1 # 10) (confidence baseline - (5 # 100)) |}]>
                   (baselines svc);
               isInitialized := isInitialized svc |}
        | None => svc
        end
      else svc
  | None => svc
  end.

End Behavioral.

(** ** Insertion-ordered [Map] and [Set] *)

Module JsMap.

(** A [Map<string, V>] that the code iterates: the entries in insertion
    order, one per key. *)
Definition t (V : Type) : Type := list (string * V).

Fixpoint get {V} (m : t V) (k : string) : option V :=
  match m with
  | [] => None
  | (k', v) :: m' => if decide (k' = k) then Some v else get m' k
  end.

Definition has {V} (m : t V) (k : string) : bool :=
  match get m k with Some _ => true | None => false end.

(** [m.set(k, v)]: an existing key keeps its position. *)
Fixpoint set {V} (m : t V) (k : string) (v : V) : t V :=
  match m with
  | [] => [(k, v)]
  | (k', v') :: m' =>
      if decide (k' = k) then (k', v) :: m' else (k', v') :: set m' k v
  end.

Definition keys {V} (m : t V) : list string := map fst m.
Definition values {V} (m : t V) : list V := map snd m.

End JsMap.

Module JsSet.

(** A [Set<A>] that the code iterates: the members in insertion order. *)
Definition add {A} `{EqDecision A} (s : list A) (x : A) : list A :=
  if decide (x ∈ s) then s else s ++ [x].

(** [new Set(xs)]. *)
Definition ofList {A} `{EqDecision A} (xs : list A) : list A :=
  fold_left add xs [].

(** [s.has(x)], and [xs.includes(x)] on an array. *)
Definition includes {A} `{EqDecision A} (s : list A) (x : A) : bool :=
  bool_decide (x ∈ s).

End JsSet.

(** ** GraphCorrelationEngine.ts *)

Inductive RelationshipType :=
| communicates_with | accesses | executes | owns | contains | similar_to.

#[global] Instance RelationshipType_eq_dec : EqDecision RelationshipType.
Proof. solve_decision. Defined.

Record EntityCorrelation := mkEntityCorrelation {
  sourceEntity : string;
  targetEntity : string;
  relationship : RelationshipType;
  strength : Q;
  corr_confidence : Q;
  evidence : list string;
  lastSeen : Z;
}.

Module Graph.

Record GraphConfig := mkGraphConfig {
  correlationWindow : Q;        (* hours *)
  minCorrelationStrength : Q;
}.

Record ThreatChain := mkThreatChain {
  entities : list string;
  relationships : list EntityCorrelation;
  tc_riskScore : Q;
  pattern : string;
}.

(** [recommendations] (formatted strings) are not modelled. *)
Record CorrelationResult := mkCorrelationResult {
  correlations : list EntityCorrelation;
  networkStrength : Q;
  threatChains : list ThreatChain;
  cr_riskScore : Q;
}.

(** One row returned by the Cypher query of [findEntityCorrelations]. *)
Record QueryRecord := mkQueryRecord {
  qr_targetId : string;
  qr_relationship : RelationshipType;
  qr_strength : Q;
  qr_confidence : Q;
  qr_evidence : list string;
  qr_lastSeen : Z;
}.

(** The engine object: whether [driver] is set, and [isInitialized]. *)
Record Service := mkService {
  hasDriver : bool;
  isInitialized : bool;
}.

(** *** Connected components *)

(** The adjacency map [Map<string, Set<string>>]. *)
Definition AdjacencyMap := JsMap.t (list string).

Definition ensureKey (graph : AdjacencyMap) (k : string) : AdjacencyMap :=
  if JsMap.has graph k then graph else JsMap.set graph k [].

(** [graph.get(k)!.add(x)]. *)
Definition addNeighbor (graph : AdjacencyMap) (k x : string) : AdjacencyMap :=
  match JsMap.get graph k with
  | Some s => JsMap.set graph k (JsSet.add s x)
  | None => graph
  end.

(** Body of the loop that builds the adjacency list. *)
Definition addEdge (graph : AdjacencyMap) (corr : EntityCorrelation) : AdjacencyMap :=
  let g1 := ensureKey graph (sourceEntity corr) in
  let g2 := ensureKey g1 (targetEntity corr) in
  let g3 := addNeighbor g2 (sourceEntity corr) (targetEntity corr) in
  addNeighbor g3 (targetEntity corr) (sourceEntity corr).

Definition buildGraph (correlations : list EntityCorrelation) : AdjacencyMap :=
  fold_left addEdge correlations [].

(** [graph.get(entity) || new Set()]. *)
Definition neighborsOf (graph : AdjacencyMap) (entity : string) : list string :=
  default [] (JsMap.get graph entity).

(** State of the traversal: the [visited] set and the [component] under
    construction. *)
Definition DfsState : Type := gset string * list string.

(** Body of the neighbour loop of [dfs]; [visit] is the recursive call. *)
Definition visitNeighbor (visit : string -> DfsState -> option DfsState)
    (acc : option DfsState) (neighbor : string) : option DfsState :=
  match acc with
  | None => None
  | Some st =>
      if decide (neighbor ∈ st.1) then Some st else visit neighbor st
  end.

(** [dfs], with the recursion depth bounded by [fuel]; [None] means that
    the bound was hit. *)
Fixpoint dfs (fuel : nat) (graph : AdjacencyMap) (entity : string)
    (st : DfsState) : option DfsState :=
  match fuel with
  | O => None
  | S fuel' =>
      let st1 : DfsState := ({[ entity ]} ∪ st.1, st.2 ++ [entity]) in
      fold_left (visitNeighbor (dfs fuel' graph))
                (neighborsOf graph entity) (Some st1)
  end.

(** Body of the loop over [graph.keys()]. *)
Definition componentStep (fuel : nat) (graph : AdjacencyMap)
    (acc : option (gset string * list (list string))) (entity : string)
  : option (gset string * list (list string)) :=
  match acc with
  | None => None
  | Some (visited, components) =>
      if decide (entity ∈ visited) then Some (visited, components)
      else
        match dfs fuel graph entity (visited, []) with
        | Some (visited', component) =>
            Some (visited', components ++ [component])
        | None => None
        end
  end.

(** The traversal of [findConnectedComponents]; the depth bound handed
    to [dfs] is the number of keys of the adjacency map. *)
Definition runComponents (correlations : list EntityCorrelation)
  : option (gset string * list (list string)) :=
  let graph := buildGraph correlations in
  fold_left (componentStep (length graph) graph) (JsMap.keys graph) (Some (∅, [])).

Definition findConnectedComponents (correlations : list EntityCorrelation)
  : list (list string) :=
  match runComponents correlations with
  | Some (_, components) => components
  | None => []
  end.

(** *** Threat chains *)

Definition calculateChainRiskScore (entities : list string)
    (correlations : list EntityCorrelation) : Q :=
  if (length correlations =? 0)%nat then 0
  else
    let avgStrength :=
      JsNum.sumBy strength correlations / JsNum.ofNat (length correlations) in
    let avgConfidence :=
      JsNum.sumBy corr_confidence correlations / JsNum.ofNat (length correlations) in
    let chainLength := JsNum.ofNat (length entities) in
    let lengthFactor := Qmin 1 (chainLength / 10) in
    let strengthFactor := avgStrength in
    let confidenceFactor := avgConfidence in
    lengthFactor * (4 # 10) + strengthFactor * (4 # 10) + confidenceFactor * (2 # 10).

Definition identifyThreatPattern (entities : list string)
    (correlations : list EntityCorrelation) : string :=
  let relationshipTypes := map relationship correlations in
  let uniqueTypes := JsSet.ofList relationshipTypes in
  if JsSet.includes uniqueTypes communicates_with && JsSet.includes uniqueTypes accesses
  then "lateral_movement"
  else if JsSet.includes uniqueTypes executes && JsSet.includes uniqueTypes accesses
  then "privilege_escalation"
  else if JsSet.includes uniqueTypes communicates_with && (2 <? length uniqueTypes)%nat
  then "command_and_control"
  else if JsSet.includes uniqueTypes accesses && (3 <? length uniqueTypes)%nat
  then "data_exfiltration"
  else "suspicious_activity".

(** The [filter] of [analyzeThreatChain]: the edges with both ends in the
    component. *)
Definition chainCorrelations (entities : list string)
    (correlations : list EntityCorrelation) : list EntityCorrelation :=
  List.filter
    (fun corr => JsSet.includes entities (sourceEntity corr)
                 && JsSet.includes entities (targetEntity corr))
    correlations.

(** [description] is a formatted string and is not modelled. *)
Definition analyzeThreatChain (entities : list string)
    (correlations : list EntityCorrelation) : ThreatChain :=
  let chainCorrs := chainCorrelations entities correlations in
  {| entities := entities;
     relationships := chainCorrs;
     tc_riskScore := calculateChainRiskScore entities chainCorrs;
     pattern := identifyThreatPattern entities chainCorrs |}.

(** Body of the loop of [findThreatChains]. *)
Definition chainStep (correlations : list EntityCorrelation)
    (threatChains : list ThreatChain) (component : list string)
  : list ThreatChain :=
  if (3 <=? length component)%nat then
    let chain := analyzeThreatChain component correlations in
    if JsNum.gtb (tc_riskScore chain) (5 # 10)
    then threatChains ++ [chain] else threatChains
  else threatChains.

Definition findThreatChains (eventEntities : list string)
    (correlations : list EntityCorrelation) : list ThreatChain :=
  fold_left (chainStep correlations) (findConnectedComponents correlations) [].

Definition calculateRiskScore (correlations : list EntityCorrelation)
    (threatChains : list ThreatChain) : Q :=
  if (length correlations =? 0)%nat && (length threatChains =? 0)%nat then 0
  else
    let correlationRisk :=
      if (0 <? length correlations)%nat
      then JsNum.sumBy (fun corr => strength corr * corr_confidence corr) correlations
           / JsNum.ofNat (length correlations)
      else 0 in
    let chainRisk :=
      if (0 <? length threatChains)%nat
      then JsNum.sumBy tc_riskScore threatChains / JsNum.ofNat (length threatChains)
      else 0 in
    Qmin 1 (correlationRisk * (6 # 10) + chainRisk * (4 # 10)).

Section Engine.

Variable config : GraphConfig.

(** [session.run(query, {entityId, cutoffTime})] of
    [findEntityCorrelations]: the rows, ordered by the database, or
    [None] when the call throws. *)
Variable runQuery : string -> Q -> option (list QueryRecord).

Definition findEntityCorrelations (svc : Service) (entityId : string)
    (timestamp : Timestamp) : list EntityCorrelation :=
  if negb (hasDriver svc) then []
  else
    let cutoffTime :=
      inject_Z (getTime timestamp) - correlationWindow config * 60 * 60 * 1000 in
    match runQuery entityId cutoffTime with
    | None => []
    | Some records =>
        map (fun record =>
               {| sourceEntity := entityId;
                  targetEntity := qr_targetId record;
                  relationship := qr_relationship record;
                  strength := qr_strength record;
                  corr_confidence := qr_confidence record;
                  evidence := qr_evidence record;
                  lastSeen := qr_lastSeen record |})
            (List.filter
               (fun record =>
                  JsNum.geb (qr_strength record) (minCorrelationStrength config))
               records)
    end.

(** Accumulator of the entity loop of [correlateEvent]: correlations,
    totalStrength, correlationCount. *)
Definition correlateStep (svc : Service) (timestamp : Timestamp)
    (acc : list EntityCorrelation * Q * nat) (occ : string * EntityInfo)
  : list EntityCorrelation * Q * nat :=
  let '(corrs, totalStrength, correlationCount) := acc in
  let entityCorrelations :=
    findEntityCorrelations svc (ent_id (snd occ)) timestamp in
  if (0 <? length entityCorrelations)%nat then
    (corrs ++ entityCorrelations,
     totalStrength + JsNum.sumBy strength entityCorrelations,
     (correlationCount + length entityCorrelations)%nat)
  else (corrs ++ entityCorrelations, totalStrength, correlationCount).

(** [correlateEvent]; the write-back to the database ([updateGraph],
    whose failures are caught there) leaves no trace in the result. *)
Definition correlateEvent (svc : Service) (event : SecurityEvent)
  : Result CorrelationResult :=
  if negb (isInitialized svc) then
    Throw "Graph Correlation Engine not initialized"
  else
    let '(corrs, totalStrength, correlationCount) :=
      fold_left (correlateStep svc (ev_timestamp event))
                (entityOccurrences event) ([], 0, 0%nat) in
    let networkStrength :=
      if (0 <? correlationCount)%nat
      then totalStrength / JsNum.ofNat correlationCount else 0 in
    let chains :=
      findThreatChains (map (fun occ => ent_id (snd occ)) (entityOccurrences event))
                       corrs in
    Ok {| correlations := corrs;
          networkStrength := networkStrength;
          threatChains := chains;
          cr_riskScore := calculateRiskScore corrs chains |}.

End Engine.

End Graph.

(** ** JavaScript strings *)

Module JsString.

(** [c.toLowerCase()] on one code unit; only the letters A–Z change. *)
Definition lowerAscii (c : ascii) : ascii :=
  let n := nat_of_ascii c in
  if (65 <=? n)%nat && (n <=? 90)%nat then ascii_of_nat (n + 32) else c.

(** [s.toLowerCase()], for strings of ASCII characters. *)
Fixpoint toLowerCase (s : string) : string :=
  match s with
  | EmptyString => EmptyString
  | String c s' => String (lowerAscii c) (toLowerCase s')
  end.

(** [s.includes(sub)]: [sub] occurs in [s] as a contiguous substring. *)
Fixpoint includes (s sub : string) : bool :=
  String.prefix sub s
  || match s with
     | EmptyString => false
     | String _ s' => includes s' sub
     end.

End JsString.

(** ** DetectionAgent.ts and the LLM service *)

Record RuleMetadata := mkRuleMetadata {
  mitreTechniques : list string;
}.

Record RulePerformance := mkRulePerformance {
  totalMatches : nat;
  truePositives : nat;
  falsePositives : nat;
  falseNegatives : nat;
  accuracy : Q;
  precision : Q;
  recall : Q;
  f1Score : Q;
}.

Record DetectionRule := mkDetectionRule {
  rule_id : string;
  rule_name : string;
  metadata : RuleMetadata;
  performance : RulePerformance;
}.

Module LLM.

Record RuleEvaluationResult := mkRuleEvaluationResult {
  matches : bool;
  confidence : Q;
  reason : string;
}.

(** The parsed answer of the model, as far as [evaluateRule] reads it; a
    field that is absent or falsy is [None]. *)
Record Answer := mkAnswer {
  ans_matches : option bool;
  ans_confidence : option Q;
  ans_reason : option string;
}.

Section Service.

(** [generateCompletion(prompt, systemPrompt)]: the reply of the model,
    or [Throw] when the call ends in an error (a timeout reported by
    the client is such an error). *)
Variable generateCompletion : string -> Result string.

(** [parseJSONResponse]: throws on text that is not JSON. *)
Variable parseJSONResponse : string -> Result Answer.

(** The body of the [try] block of [evaluateRule], up to the parsed
    answer. *)
Definition completeAndParse (prompt : string) : Result Answer :=
  match generateCompletion prompt with
  | Ok response => parseJSONResponse response
  | Throw message => Throw message
  end.

Definition evaluateRule (isInitialized : bool) (prompt : string)
  : Result RuleEvaluationResult :=
  if negb isInitialized then Throw "LLM Service not initialized"
  else
    match completeAndParse prompt with
    | Ok result =>
        Ok {| matches := default false (ans_matches result);
              confidence := Qmax 0 (Qmin 1 (default 0 (ans_confidence result)));
              reason := default "No reason provided" (ans_reason result) |}
    | Throw _ =>
        Ok {| matches := false; confidence := 0;
              reason := "Evaluation failed due to error" |}
    end.

End Service.

End LLM.

Module Agent.

(** The order in which the pipeline enters its collaborators. *)
Inductive Call :=
| CallAnalyzeEvent (eventId : string)
| CallCorrelateEvent (eventId : string)
| CallEnrichEvent (eventId : string)
| CallEvaluateRules (eventId : string)
| CallGenerateRecommendations (eventId : string)
| CallUpdateBaseline (eventId : string)
| CallUpdateGraph (eventId : string)
| CallUpdateWithEvent (eventId : string).

#[global] Instance Call_eq_dec : EqDecision Call.
Proof. solve_decision. Defined.

(** The agent and the services it owns.  [callLog] is a ghost field. *)
Record AgentState := mkAgentState {
  behavioral : Behavioral.Service;
  graph : Graph.Service;
  llmInitialized : bool;
  activeRules : JsMap.t DetectionRule;
  callLog : list Call;
}.

Record RuleResults := mkRuleResults {
  matchedRules : list DetectionRule;
  needsRecommendation : bool;
  falsePositiveRisk : Q;
}.

(** [hasSimilarRule]. *)
Definition hasSimilarRule (rule : DetectionRule) (event : SecurityEvent) : bool :=
  let eventType := JsString.toLowerCase (ev_eventType event) in
  let ruleTechnique :=
    match mitreTechniques (metadata rule) with
    | technique :: _ =>
        let lowered := JsString.toLowerCase technique in
        if String.eqb lowered "" then "" else lowered
    | [] => ""
    end in
  JsString.includes eventType ruleTechnique
  || JsString.includes ruleTechnique eventType.

(** [rule.performance] after the counter update and the recalculation of
    [updateRulePerformance] ([lastUpdated] is not modelled). *)
Definition updatedPerformance (isFalsePositive : bool) (p : RulePerformance)
  : RulePerformance :=
  let falsePositives' :=
    if isFalsePositive then S (falsePositives p) else falsePositives p in
  let truePositives' :=
    if isFalsePositive then truePositives p else S (truePositives p) in
  let total := JsNum.ofNat truePositives' + JsNum.ofNat falsePositives' in
  {| totalMatches := totalMatches p;
     truePositives := truePositives';
     falsePositives := falsePositives';
     falseNegatives := falseNegatives p;
     accuracy := JsNum.ofNat truePositives' / total;
     precision :=
       JsNum.ofNat truePositives'
       / (JsNum.ofNat truePositives' + JsNum.ofNat falsePositives');
     recall := recall p;
     f1Score := f1Score p |}.

(** [updateRulePerformance]: the rule object is changed in place, so it
    keeps its position in [activeRules]; an unknown id changes nothing. *)
Definition updateRulePerformance (ruleId : string) (isFalsePositive : bool)
    (rules : JsMap.t DetectionRule) : JsMap.t DetectionRule :=
  match JsMap.get rules ruleId with
  | None => rules
  | Some rule =>
      JsMap.set rules ruleId
        {| rule_id := rule_id rule; rule_name := rule_name rule;
           metadata := metadata rule;
           performance := updatedPerformance isFalsePositive (performance rule) |}
  end.

Section Pipeline.

Variable behavioralConfig : Behavioral.BehavioralConfig.
Variable graphConfig : Graph.GraphConfig.
Variable runQuery : string -> Q -> option (list Graph.QueryRecord).
Variable generateCompletion : string -> Result string.
Variable parseJSONResponse : string -> Result LLM.Answer.

(** What [knowledgeBase.enrichEvent] returns. *)
Variable Enrichment : Type.
Variable enrichEvent : SecurityEvent -> Result Enrichment.
Variable updateWithEvent : SecurityEvent -> Result unit.

Record RuleContext := mkRuleContext {
  ctx_behavioral : Behavioral.BehavioralResult;
  ctx_correlation : Graph.CorrelationResult;
  ctx_enrichment : Enrichment;
}.

(** [buildRuleEvaluationPrompt]: a template string. *)
Variable buildRuleEvaluationPrompt :
  DetectionRule -> SecurityEvent -> RuleContext -> string.

(** [evaluateRule] of the agent. *)
Definition evaluateRule (llmReady : bool) (rule : DetectionRule)
    (event : SecurityEvent) (context : RuleContext) : LLM.RuleEvaluationResult :=
  let evaluationPrompt := buildRuleEvaluationPrompt rule event context in
  match LLM.evaluateRule generateCompletion parseJSONResponse llmReady
                         evaluationPrompt with
  | Ok llmResult =>
      {| LLM.matches := LLM.matches llmResult;
         LLM.confidence := LLM.confidence llmResult;
         LLM.reason := LLM.reason llmResult |}
  | Throw _ =>
      {| LLM.matches := false; LLM.confidence := 0;
         LLM.reason := "Evaluation error" |}
  end.

(** Body of the rule loop of [evaluateRules]: matchedRules,
    needsRecommendation, falsePositiveRisk. *)
Definition evaluateRulesStep (llmReady : bool) (event : SecurityEvent)
    (context : RuleContext) (acc : list DetectionRule * bool * Q)
    (rule : DetectionRule) : list DetectionRule * bool * Q :=
  let '(matched, needsRec, fpRisk) := acc in
  let matchResult := evaluateRule llmReady rule event context in
  if LLM.matches matchResult then
    (matched ++ [rule],
     if JsNum.gtb (LLM.confidence matchResult) (8 # 10)
        && negb (hasSimilarRule rule event)
     then true else needsRec,
     if JsNum.ltb (LLM.confidence matchResult) (7 # 10)
     then fpRisk + (1 - LLM.confidence matchResult) * (3 # 10) else fpRisk)
  else acc.

Definition evaluateRules (llmReady : bool) (rules : list DetectionRule)
    (event : SecurityEvent) (context : RuleContext) : RuleResults :=
  let '(matched, needsRec, fpRisk) :=
    fold_left (evaluateRulesStep llmReady event context) rules ([], false, 0) in
  {| matchedRules := matched;
     needsRecommendation := needsRec;
     falsePositiveRisk := Qmin 1 fpRisk |}.

(** *** The pipeline, as a computation over the agent state that may
    throw *)

Definition M (A : Type) : Type := AgentState -> Result A * AgentState.

Definition ret {A} (a : A) : M A := fun st => (Ok a, st).

Definition bind {A B} (m : M A) (k : A -> M B) : M B :=
  fun st =>
    match m st with
    | (Ok a, st') => k a st'
    | (Throw message, st') => (Throw message, st')
    end.

(** [try { body } catch (error) { handler }]. *)
Definition tryCatch {A} (body : M A) (handler : string -> M A) : M A :=
  fun st =>
    match body st with
    | (Ok a, st') => (Ok a, st')
    | (Throw message, st') => handler message st'
    end.

Definition liftResult {A} (r : Result A) : M A := fun st => (r, st).

Definition logCall (c : Call) : M unit :=
  fun st =>
    (Ok tt,
     {| behavioral := behavioral st; graph := graph st;
        llmInitialized := llmInitialized st; activeRules := activeRules st;
        callLog := callLog st ++ [c] |}).

#[local] Instance M_ret : MRet M := @ret.
#[local] Instance M_bind : MBind M := fun A B k m => bind m k.

Definition analyzeEventM (event : SecurityEvent) : M Behavioral.BehavioralResult :=
  logCall (CallAnalyzeEvent (ev_id event)) ;;
  ((fun st =>
      let '(r, svc) :=
        Behavioral.analyzeEvent behavioralConfig event (behavioral st) in
      (r, {| behavioral := svc; graph := graph st;
             llmInitialized := llmInitialized st; activeRules := activeRules st;
             callLog := callLog st |})) : M _).

Definition correlateEventM (event : SecurityEvent) : M Graph.CorrelationResult :=
  logCall (CallCorrelateEvent (ev_id event)) ;;
  ((fun st => (Graph.correlateEvent graphConfig runQuery (graph st) event, st))
    : M _).

Definition enrichEventM (event : SecurityEvent) : M Enrichment :=
  logCall (CallEnrichEvent (ev_id event)) ;;
  liftResult (enrichEvent event).

Definition evaluateRulesM (event : SecurityEvent) (context : RuleContext)
  : M RuleResults :=
  logCall (CallEvaluateRules (ev_id event)) ;;
  ((fun st =>
      (Ok (evaluateRules (llmInitialized st) (JsMap.values (activeRules st))
                         event context), st)) : M _).

(** [generateRecommendations] catches whatever its collaborators throw;
    the recommendations go to the knowledge base and the event bus. *)
Definition generateRecommendationsM (event : SecurityEvent) : M unit :=
  logCall (CallGenerateRecommendations (ev_id event)).

Definition updateBaselineM (event : SecurityEvent) : M unit :=
  logCall (CallUpdateBaseline (ev_id event)) ;;
  ((fun st =>
      (Ok tt,
       {| behavioral :=
            Behavioral.updateBaseline behavioralConfig event (behavioral st);
          graph := graph st; llmInitialized := llmInitialized st;
          activeRules := activeRules st; callLog := callLog st |})) : M _).

(** The public [updateGraph(event, context)] of the engine only logs. *)
Definition updateGraphM (event : SecurityEvent) : M unit :=
  logCall (CallUpdateGraph (ev_id event)).

Definition updateWithEventM (event : SecurityEvent) : M unit :=
  logCall (CallUpdateWithEvent (ev_id event)) ;;
  liftResult (updateWithEvent event).

Definition updateLearningModels (event : SecurityEvent) : M unit :=
  tryCatch
    (updateBaselineM event ;;
     updateGraphM event ;;
     updateWithEventM event)
    (fun _ => ret tt).

(** What a completed run has computed (the values the final debug
    line reports on). *)
Record PipelineOutcome := mkPipelineOutcome {
  out_behavioral : Behavioral.BehavioralResult;
  out_correlation : Graph.CorrelationResult;
  out_rules : RuleResults;
}.

(** [processEventPipeline]; [None] when the [catch] branch was taken. *)
Definition processEventPipeline (event : SecurityEvent) : M (option PipelineOutcome) :=
  tryCatch
    (behavioralResult ← analyzeEventM event;
     correlationResult ← correlateEventM event;
     enrichmentResult ← enrichEventM event;
     let context :=
       {| ctx_behavioral := behavioralResult;
          ctx_correlation := correlationResult;
          ctx_enrichment := enrichmentResult |} in
     ruleResults ← evaluateRulesM event context;
     (if needsRecommendation ruleResults
      then generateRecommendationsM event else ret tt) ;;
     updateLearningModels event ;;
     ret (Some {| out_behavioral := behavioralResult;
                  out_correlation := correlationResult;
                  out_rules := ruleResults |}))
    (fun _ => ret None).

(** The loop of [processQueue]: the queued events, one after the
    other. *)
Fixpoint processQueue (queue : list SecurityEvent) : M unit :=
  match queue with
  | [] => ret tt
  | event :: queue' =>
      processEventPipeline event ;; processQueue queue'
  end.

End Pipeline.

End Agent.

(** ** Feedback handling of the agent *)

Module AgentFeedback.
Import Agent.

(** The fields of a feedback message that the agent reads; an absent
    field is [None]. *)
Record Feedback := mkFeedback {
  fb_entityId : option string;
  fb_ruleId : option string;
  fb_isFalsePositive : bool;
}.

(** [processFeedback] of the agent.  Both collaborators catch their own
    errors, so the three steps always run.  The second component is
    [stats.falsePositivesReduced]. *)
Definition processFeedback (feedback : Feedback) (st : AgentState)
    (falsePositivesReduced : nat) : AgentState * nat :=
  let behavioral' :=
    Behavioral.processFeedback (fb_entityId feedback) (fb_isFalsePositive feedback)
                               (behavioral st) in
  let rules' :=
    match fb_ruleId feedback with
    | Some ruleId =>
        if String.eqb ruleId "" then activeRules st
        else updateRulePerformance ruleId (fb_isFalsePositive feedback)
                                   (activeRules st)
    | None => activeRules st
    end in
  ({| behavioral := behavioral'; graph := graph st;
      llmInitialized := llmInitialized st; activeRules := rules';
      callLog := callLog st |},
   if fb_isFalsePositive feedback then S falsePositivesReduced
   else falsePositivesReduced).

(** The [feedback.received] handler, over a sequence of messages. *)
Definition processFeedbacks (feedbacks : list Feedback) (st : AgentState)
    (falsePositivesReduced : nat) : AgentState * nat :=
  fold_left (fun acc feedback => processFeedback feedback (fst acc) (snd acc))
            feedbacks (st, falsePositivesReduced).

End AgentFeedback.

(** * Properties *)

(** ** Numbers, maps and sets *)

Module JsNumFacts.
Import JsNum.

Lemma gtb_spec a b : gtb a b = true <-> b < a.
Proof.
  unfold gtb. rewrite negb_true_iff.
  destruct (Qle_bool a b) eqn:E.
  - apply Qle_bool_iff in E. split; [discriminate | intros H; lra].
  - split; [intros _ | reflexivity].
    apply Qnot_le_lt. intros H. apply Qle_bool_iff in H. congruence.
Qed.

Lemma ltb_spec a b : ltb a b = true <-> a < b.
Proof. apply (gtb_spec b a). Qed.

Lemma geb_spec a b : geb a b = true <-> b <= a.
Proof. apply Qle_bool_iff. Qed.

Lemma ofNat_nonneg n : 0 <= ofNat n.
Proof.
  unfold ofNat. change 0 with (inject_Z 0). rewrite <- Zle_Qle. lia.
Qed.

End JsNumFacts.

Module JsMapFacts.
Import JsMap.

Lemma get_set_eq {V} (m : t V) k v : get (set m k v) k = Some v.
Proof.
  induction m as [|[k' v'] m IH]; simpl.
  - by rewrite decide_True.
  - destruct (decide (k' = k)); simpl.
    + by rewrite decide_True.
    + by rewrite decide_False.
Qed.

Lemma get_set_ne {V} (m : t V) k k' v : k ≠ k' -> get (set m k v) k' = get m k'.
Proof.
  intros Hne. induction m as [|[k0 v0] m IH]; simpl.
  - by rewrite decide_False.
  - destruct (decide (k0 = k)) as [-> |]; simpl.
    + by rewrite !decide_False.
    + destruct (decide (k0 = k')); [done | apply IH].
Qed.

Lemma get_Some_keys {V} (m : t V) k : is_Some (get m k) <-> k ∈ keys m.
Proof.
  induction m as [|[k' v'] m IH]; simpl.
  - split; [intros [? ?]; discriminate | intros H; inversion H].
  - destruct (decide (k' = k)) as [-> |Hne].
    + split; [intros _; apply list_elem_of_here | eauto].
    + rewrite IH. split; [apply list_elem_of_further |].
      intros H. apply elem_of_cons in H as [-> |H]; [done | exact H].
Qed.

Lemma keys_set_Some {V} (m : t V) k v :
  is_Some (get m k) -> keys (set m k v) = keys m.
Proof.
  induction m as [|[k' v'] m IH]; simpl.
  - intros [? ?]; discriminate.
  - destruct (decide (k' = k)); simpl; [done |].
    intros H. by rewrite IH.
Qed.

Lemma keys_set_None {V} (m : t V) k v :
  get m k = None -> keys (set m k v) = keys m ++ [k].
Proof.
  induction m as [|[k' v'] m IH]; simpl; [done |].
  destruct (decide (k' = k)); simpl; [discriminate |].
  intros H. by rewrite IH.
Qed.

End JsMapFacts.

Module JsSetFacts.
Import JsSet.

Lemma elem_of_add {A} `{EqDecision A} (s : list A) x y :
  y ∈ add s x <-> y ∈ s ∨ y = x.
Proof.
  unfold add. destruct (decide (x ∈ s)) as [Hin|Hnin].
  - split; [auto | intros [?| ->]; done].
  - rewrite elem_of_app, list_elem_of_singleton. tauto.
Qed.

Lemma NoDup_add {A} `{EqDecision A} (s : list A) x : NoDup s -> NoDup (add s x).
Proof.
  intros Hnd. unfold add. destruct (decide (x ∈ s)); [done |].
  apply NoDup_app. split_and!; [done | | apply NoDup_singleton].
  intros y Hy Hy'. apply list_elem_of_singleton in Hy'. by subst.
Qed.

Lemma ofList_spec {A} `{EqDecision A} (xs : list A) :
  NoDup (ofList xs) ∧ ∀ y, y ∈ ofList xs <-> y ∈ xs.
Proof.
  unfold ofList.
  assert (Hgen : ∀ acc, NoDup acc ->
            NoDup (fold_left add xs acc)
            ∧ ∀ y, y ∈ fold_left add xs acc <-> y ∈ acc ∨ y ∈ xs).
  { induction xs as [|x xs IH]; intros acc Hacc; simpl.
    - split; [done |]. intros y. split; [auto | intros [?|H]; [done | inversion H]].
    - destruct (IH (add acc x) (NoDup_add _ _ Hacc)) as [Hnd Hel].
      split; [done |]. intros y. rewrite Hel, elem_of_add, elem_of_cons. tauto. }
  destruct (Hgen [] (NoDup_nil_2)) as [Hnd Hel]. split; [done |].
  intros y. rewrite Hel. split; [intros [H|H]; [inversion H | done] | auto].
Qed.

End JsSetFacts.

(** ** Connected components *)

Module GraphFacts.
Import Graph.

(** [x] is an end of some candidate edge. *)
Definition endpoint (correlations : list EntityCorrelation) (x : string) : Prop :=
  ∃ c, c ∈ correlations ∧ (sourceEntity c = x ∨ targetEntity c = x).

(** Some candidate edge joins [x] and [y], in either direction. *)
Definition linked (correlations : list EntityCorrelation) (x y : string) : Prop :=
  ∃ c, c ∈ correlations
       ∧ ((sourceEntity c = x ∧ targetEntity c = y)
          ∨ (sourceEntity c = y ∧ targetEntity c = x)).

(** [y] can be reached from [x] along candidate edges taken as undirected. *)
Definition connected (correlations : list EntityCorrelation) : relation string :=
  rtc (linked correlations).

Lemma linked_sym cs x y : linked cs x y -> linked cs y x.
Proof. intros (c & Hc & H). exists c. split; [done | tauto]. Qed.

Lemma connected_sym cs x y : connected cs x y -> connected cs y x.
Proof.
  induction 1 as [|x y z Hxy _ IH]; [apply rtc_refl |].
  eapply rtc_trans; [exact IH |]. apply rtc_once. by apply linked_sym.
Qed.

(** *** The adjacency map *)

Lemma neighborsOf_ensureKey g k x :
  neighborsOf (ensureKey g k) x = neighborsOf g x.
Proof.
  unfold ensureKey, JsMap.has, neighborsOf.
  destruct (JsMap.get g k) eqn:E; [done |].
  destruct (decide (k = x)) as [-> |Hne].
  - by rewrite JsMapFacts.get_set_eq, E.
  - by rewrite JsMapFacts.get_set_ne.
Qed.

Lemma keys_ensureKey g k :
  NoDup (JsMap.keys g) ->
  NoDup (JsMap.keys (ensureKey g k))
  ∧ is_Some (JsMap.get (ensureKey g k) k)
  ∧ ∀ x, x ∈ JsMap.keys (ensureKey g k) <-> x ∈ JsMap.keys g ∨ x = k.
Proof.
  intros Hnd. unfold ensureKey, JsMap.has.
  destruct (JsMap.get g k) eqn:E.
  - split_and!; [done | by rewrite E |].
    intros x. split; [auto | intros [H| ->]; [done |]].
    apply JsMapFacts.get_Some_keys. by rewrite E.
  - rewrite JsMapFacts.keys_set_None by done. split_and!.
    + apply NoDup_app. split_and!; [done | | apply NoDup_singleton].
      intros x Hx Hx'. apply list_elem_of_singleton in Hx' as ->.
      apply JsMapFacts.get_Some_keys in Hx. rewrite E in Hx. by destruct Hx.
    + rewrite JsMapFacts.get_set_eq. eauto.
    + intros x. rewrite elem_of_app, list_elem_of_singleton. tauto.
Qed.

Lemma addNeighbor_spec g k x :
  is_Some (JsMap.get g k) ->
  JsMap.keys (addNeighbor g k x) = JsMap.keys g
  ∧ ∀ k' y, y ∈ neighborsOf (addNeighbor g k x) k'
            <-> y ∈ neighborsOf g k' ∨ (k' = k ∧ y = x).
Proof.
  intros [s Hs]. unfold addNeighbor. rewrite Hs. split.
  - apply JsMapFacts.keys_set_Some. by rewrite Hs.
  - intros k' y. unfold neighborsOf. destruct (decide (k = k')) as [<-|Hne].
    + rewrite JsMapFacts.get_set_eq, Hs. simpl. rewrite JsSetFacts.elem_of_add.
      split; [intros [?|?]; auto | intros [?|[_ ?]]; auto].
    + rewrite JsMapFacts.get_set_ne by done.
      split; [auto | intros [?|[? _]]; [done | congruence]].
Qed.

Lemma addEdge_spec g c :
  NoDup (JsMap.keys g) ->
  NoDup (JsMap.keys (addEdge g c))
  ∧ (∀ x, x ∈ JsMap.keys (addEdge g c)
          <-> x ∈ JsMap.keys g ∨ x = sourceEntity c ∨ x = targetEntity c)
  ∧ (∀ x y, y ∈ neighborsOf (addEdge g c) x
            <-> y ∈ neighborsOf g x
                ∨ (x = sourceEntity c ∧ y = targetEntity c)
                ∨ (x = targetEntity c ∧ y = sourceEntity c)).
Proof.
  intros Hnd. unfold addEdge.
  set (g1 := ensureKey g (sourceEntity c)).
  set (g2 := ensureKey g1 (targetEntity c)).
  destruct (keys_ensureKey g (sourceEntity c) Hnd) as (Hnd1 & Hs1 & Hk1).
  fold g1 in Hnd1, Hs1, Hk1.
  destruct (keys_ensureKey g1 (targetEntity c) Hnd1) as (Hnd2 & Ht2 & Hk2).
  fold g2 in Hnd2, Ht2, Hk2.
  assert (Hs2 : is_Some (JsMap.get g2 (sourceEntity c))).
  { apply JsMapFacts.get_Some_keys, Hk2. left. by apply JsMapFacts.get_Some_keys. }
  destruct (addNeighbor_spec g2 (sourceEntity c) (targetEntity c) Hs2) as [Hk3 Hn3].
  set (g3 := addNeighbor g2 (sourceEntity c) (targetEntity c)) in *.
  assert (Ht3 : is_Some (JsMap.get g3 (targetEntity c))).
  { apply JsMapFacts.get_Some_keys. rewrite Hk3. by apply JsMapFacts.get_Some_keys. }
  destruct (addNeighbor_spec g3 (targetEntity c) (sourceEntity c) Ht3) as [Hk4 Hn4].
  rewrite Hk4, Hk3. split_and!; [done | |].
  - intros x. rewrite Hk2, Hk1. tauto.
  - intros x y. rewrite Hn4, Hn3. unfold g2, g1.
    rewrite !neighborsOf_ensureKey. tauto.
Qed.

Lemma buildGraph_snoc cs c : buildGraph (cs ++ [c]) = addEdge (buildGraph cs) c.
Proof. unfold buildGraph. by rewrite fold_left_app. Qed.

Lemma buildGraph_spec cs :
  NoDup (JsMap.keys (buildGraph cs))
  ∧ (∀ x, x ∈ JsMap.keys (buildGraph cs) <-> endpoint cs x)
  ∧ (∀ x y, y ∈ neighborsOf (buildGraph cs) x <-> linked cs x y).
Proof.
  induction cs as [|c cs IH] using rev_ind.
  - split_and!; [apply NoDup_nil_2 | |].
    + intros x. split; [intros H; inversion H |].
      intros (c & Hc & _). inversion Hc.
    + intros x y. split; [intros H; inversion H |].
      intros (c & Hc & _). inversion Hc.
  - destruct IH as (Hnd & Hk & Hn). rewrite buildGraph_snoc.
    destruct (addEdge_spec (buildGraph cs) c Hnd) as (Hnd' & Hk' & Hn').
    split_and!; [done | |].
    + intros x. rewrite Hk', Hk. unfold endpoint. split.
      * intros [(c' & Hc' & H)|H].
        -- exists c'. split; [apply elem_of_app; by left | done].
        -- exists c. split; [apply elem_of_app; right; apply list_elem_of_singleton; done |].
           destruct H; subst; auto.
      * intros (c' & Hc' & H). apply elem_of_app in Hc' as [Hc'|Hc'].
        -- left. by exists c'.
        -- apply list_elem_of_singleton in Hc' as ->. right. destruct H; subst; auto.
    + intros x y. rewrite Hn', Hn. unfold linked. split.
      * intros [(c' & Hc' & H)|H].
        -- exists c'. split; [apply elem_of_app; by left | done].
        -- exists c. split; [apply elem_of_app; right; by apply list_elem_of_singleton |].
           destruct H as [[-> ->]|[-> ->]]; auto.
      * intros (c' & Hc' & H). apply elem_of_app in Hc' as [Hc'|Hc'].
        -- left. by exists c'.
        -- apply list_elem_of_singleton in Hc' as ->. right.
           destruct H as [[<- <-]|[<- <-]]; auto.
Qed.

(** *** The traversal *)

Lemma dfs_unfold fuel graph e V C :
  dfs (S fuel) graph e (V, C)
  = fold_left (visitNeighbor (dfs fuel graph)) (neighborsOf graph e)
              (Some ({[e]} ∪ V, C ++ [e])).
Proof. reflexivity. Qed.

Section Traversal.

Variable graph : AdjacencyMap.

(** The keys of the adjacency map, as a set. *)
Variable K : gset string.

Hypothesis neighbors_in_K :
  ∀ x y, y ∈ neighborsOf graph x -> y ∈ K.

Definition adjacent (x y : string) : Prop := y ∈ neighborsOf graph x.

Lemma size_unvisited_lt (V : gset string) e :
  e ∈ K -> e ∉ V -> (size (K ∖ ({[e]} ∪ V)) < size (K ∖ V))%nat.
Proof. intros HK HV. apply subset_size. set_solver. Qed.

Lemma size_unvisited_mono (V V' : gset string) :
  V ⊆ V' -> (size (K ∖ V') ≤ size (K ∖ V))%nat.
Proof. intros H. apply subseteq_size. set_solver. Qed.

(** What one call of [dfs] adds, for a start node not yet visited:
    [new] is appended to the component and joined to [visited]. *)
Definition dfs_post (e : string) (V : gset string) (new : list string) : Prop :=
  NoDup new
  ∧ (∀ x, x ∈ new → (x ∉ V) ∧ x ∈ K ∧ rtc adjacent e x)
  ∧ e ∈ new
  ∧ (∀ x y, x ∈ new -> adjacent x y -> y ∈ V ∪ list_to_set new).

(** The neighbour loop, given that the recursive calls behave. *)
Lemma visitNeighbors_spec (fuel : nat) :
  (∀ e V C, e ∈ K -> e ∉ V -> (size (K ∖ V) ≤ fuel)%nat ->
     ∃ new, dfs fuel graph e (V, C) = Some (V ∪ list_to_set new, C ++ new)
            ∧ dfs_post e V new) ->
  ∀ ns V C, (∀ n, n ∈ ns -> n ∈ K) -> (size (K ∖ V) ≤ fuel)%nat ->
    ∃ new,
      fold_left (visitNeighbor (dfs fuel graph)) ns (Some (V, C))
      = Some (V ∪ list_to_set new, C ++ new)
      ∧ NoDup new
      ∧ (∀ x, x ∈ new → (x ∉ V) ∧ x ∈ K ∧ ∃ n, n ∈ ns ∧ rtc adjacent n x)
      ∧ (∀ n, n ∈ ns -> n ∈ V ∪ list_to_set new)
      ∧ (∀ x y, x ∈ new -> adjacent x y -> y ∈ V ∪ list_to_set new).
Proof.
  intros Hrec ns. induction ns as [|n ns IH]; intros V C HK Hsize.
  - exists []. simpl. split_and!.
    + f_equal. f_equal; [set_solver | by rewrite app_nil_r].
    + apply NoDup_nil_2.
    + intros x Hx. inversion Hx.
    + intros n Hn. inversion Hn.
    + intros x y Hx. inversion Hx.
  - simpl. destruct (decide (n ∈ V)) as [Hin|Hnin].
    + destruct (IH V C) as (new & Hrun & Hnd & Hnew & Hns & Hcl).
      { intros m Hm. apply HK. by apply list_elem_of_further. }
      { done. }
      exists new. split_and!; try done.
      * intros x Hx. destruct (Hnew x Hx) as (? & ? & m & Hm & ?).
        split_and!; try done. exists m. split; [by apply list_elem_of_further | done].
      * intros m Hm. apply elem_of_cons in Hm as [-> |Hm]; [set_solver | by apply Hns].
    + destruct (Hrec n V C) as (new1 & Hrun1 & Hnd1 & Hnew1 & Hn1 & Hcl1).
      { apply HK. apply list_elem_of_here. }
      { done. }
      { done. }
      rewrite Hrun1.
      destruct (IH (V ∪ list_to_set new1) (C ++ new1))
        as (new2 & Hrun2 & Hnd2 & Hnew2 & Hns2 & Hcl2).
      { intros m Hm. apply HK. by apply list_elem_of_further. }
      { etrans; [apply size_unvisited_mono | exact Hsize]. set_solver. }
      exists (new1 ++ new2). split_and!.
      * rewrite Hrun2. f_equal. f_equal; [| by rewrite app_assoc].
        rewrite list_to_set_app_L. set_solver.
      * apply NoDup_app. split_and!; try done.
        intros x Hx1 Hx2. destruct (Hnew2 x Hx2) as (Hx & _). set_solver.
      * intros x Hx. apply elem_of_app in Hx as [Hx|Hx].
        -- destruct (Hnew1 x Hx) as (? & ? & ?). split_and!; try done.
           exists n. split; [apply list_elem_of_here | done].
        -- destruct (Hnew2 x Hx) as (? & ? & m & Hm & ?). split_and!; try done.
           ++ set_solver.
           ++ exists m. split; [by apply list_elem_of_further | done].
      * intros m Hm. rewrite list_to_set_app_L.
        apply elem_of_cons in Hm as [-> |Hm]; [set_solver |].
        specialize (Hns2 m Hm). set_solver.
      * intros x y Hx Hxy. rewrite list_to_set_app_L.
        apply elem_of_app in Hx as [Hx|Hx].
        -- specialize (Hcl1 x y Hx Hxy). set_solver.
        -- specialize (Hcl2 x y Hx Hxy). set_solver.
Qed.

(** [dfs] returns when the depth bound is at least the number of keys
    not yet visited, and then it has added exactly the nodes described
    by [dfs_post]. *)
Lemma dfs_spec (fuel : nat) :
  ∀ e V C, e ∈ K -> e ∉ V -> (size (K ∖ V) ≤ fuel)%nat ->
    ∃ new, dfs fuel graph e (V, C) = Some (V ∪ list_to_set new, C ++ new)
           ∧ dfs_post e V new.
Proof.
  induction fuel as [|fuel IH]; intros e V C HeK HeV Hsize.
  - exfalso. assert (Hempty : K ∖ V ≡ ∅) by (apply size_empty_iff; lia).
    set_solver.
  - rewrite dfs_unfold.
    destruct (visitNeighbors_spec fuel IH (neighborsOf graph e)
                ({[e]} ∪ V) (C ++ [e]))
      as (new & Hrun & Hnd & Hnew & Hns & Hcl).
    { intros n Hn. by apply (neighbors_in_K e). }
    { pose proof (size_unvisited_lt V e HeK HeV). lia. }
    exists (e :: new). split; [| split_and!].
    + rewrite Hrun. f_equal. f_equal; [set_solver |].
      by rewrite <- app_assoc.
    + apply NoDup_cons. split; [| done].
      intros He. destruct (Hnew e He) as (Hx & _). set_solver.
    + intros x Hx. apply elem_of_cons in Hx as [-> |Hx].
      * split_and!; [done | done | apply rtc_refl].
      * destruct (Hnew x Hx) as (? & ? & n & Hn & Hreach).
        split_and!; [set_solver | done |].
        eapply rtc_l; [exact Hn | exact Hreach].
    + apply list_elem_of_here.
    + intros x y Hx Hxy. apply elem_of_cons in Hx as [-> |Hx].
      * specialize (Hns y Hxy). set_solver.
      * specialize (Hcl x y Hx Hxy). set_solver.
Qed.

Hypothesis adjacent_sym : ∀ x y, adjacent x y → adjacent y x.

Lemma reach_sym x y : rtc adjacent x y → rtc adjacent y x.
Proof.
  induction 1 as [|x y z Hxy _ IH]; [apply rtc_refl |].
  eapply rtc_r; [exact IH | by apply adjacent_sym].
Qed.

(** Invariant of the loop over the keys: [visited] is the union of the
    components found so far, no node occurs twice, no edge leaves
    [visited], and every component is a full reachability class. *)
Definition components_inv (V : gset string) (comps : list (list string)) : Prop :=
  V = list_to_set (concat comps)
  ∧ NoDup (concat comps)
  ∧ V ⊆ K
  ∧ (∀ x y, x ∈ V → adjacent x y → y ∈ V)
  ∧ Forall (λ c, c ≠ [] ∧ ∀ x y, x ∈ c → (y ∈ c ↔ rtc adjacent x y)) comps.

Lemma components_inv_init : components_inv ∅ [].
Proof.
  clear. split_and!; [done | apply NoDup_nil_2 | set_solver | set_solver | constructor].
Qed.

Lemma components_inv_step (V : gset string) comps new e :
  components_inv V comps → dfs_post e V new →
  components_inv (V ∪ list_to_set new) (comps ++ [new]).
Proof.
  intros (HV & Hnd & HVK & Hcl & Hall) (Hndn & Hnew & He & Hcln).
  split_and!.
  - rewrite concat_app, list_to_set_app_L, <- HV. simpl.
    by rewrite app_nil_r.
  - rewrite concat_app. simpl. rewrite app_nil_r.
    apply NoDup_app. split_and!; try done.
    intros x Hx Hx'. destruct (Hnew x Hx') as (HxV & _).
    apply HxV. rewrite HV. by apply elem_of_list_to_set.
  - intros x Hx. apply elem_of_union in Hx as [Hx|Hx]; [by apply HVK |].
    apply elem_of_list_to_set in Hx. by destruct (Hnew x Hx) as (_ & ? & _).
  - intros x y Hx Hxy. apply elem_of_union in Hx as [Hx|Hx].
    + apply elem_of_union_l. by apply (Hcl x y).
    + apply elem_of_list_to_set in Hx. by apply (Hcln x y).
  - apply Forall_app. split; [done |]. apply Forall_singleton.
    split; [intros ->; inversion He |].
    assert (Hstay : ∀ x y, x ∈ new → rtc adjacent x y → y ∈ new).
    { intros x y Hx Hreach. induction Hreach as [|x y z Hxy _ IH]; [done |].
      apply IH. specialize (Hcln x y Hx Hxy).
      apply elem_of_union in Hcln as [HyV|Hy]; [| by apply elem_of_list_to_set in Hy].
      exfalso. destruct (Hnew x Hx) as (HxV & _). apply HxV.
      apply (Hcl y x HyV). by apply adjacent_sym. }
    intros x y Hx. split; [| by apply Hstay].
    intros Hy. destruct (Hnew x Hx) as (_ & _ & Hex).
    destruct (Hnew y Hy) as (_ & _ & Hey).
    eapply rtc_trans; [apply reach_sym; exact Hex | exact Hey].
Qed.

Lemma components_loop (fuel : nat) :
  (size K ≤ fuel)%nat →
  ∀ ks V comps, (∀ k, k ∈ ks → k ∈ K) → components_inv V comps →
    ∃ V' comps',
      fold_left (componentStep fuel graph) ks (Some (V, comps)) = Some (V', comps')
      ∧ components_inv V' comps'
      ∧ V ⊆ V'
      ∧ (∀ k, k ∈ ks → k ∈ V').
Proof.
  intros Hfuel ks. induction ks as [|k ks IH]; intros V comps HK Hinv.
  - exists V, comps. split_and!; [done | done | done |].
    intros k Hk. inversion Hk.
  - simpl. destruct (decide (k ∈ V)) as [Hin|Hnin].
    + destruct (IH V comps) as (V' & comps' & Hrun & Hinv' & Hsub & Hks); [| done |].
      { intros m Hm. apply HK. by apply list_elem_of_further. }
      exists V', comps'. split_and!; try done.
      intros m Hm. apply elem_of_cons in Hm as [-> |Hm]; [by apply Hsub | by apply Hks].
    + destruct (dfs_spec fuel k V []) as (new & Hrun & Hpost).
      { apply HK, list_elem_of_here. }
      { done. }
      { etrans; [apply subseteq_size | exact Hfuel]. set_solver. }
      rewrite Hrun. simpl.
      destruct (IH (V ∪ list_to_set new) (comps ++ [new]))
        as (V' & comps' & Hrun' & Hinv' & Hsub & Hks).
      { intros m Hm. apply HK. by apply list_elem_of_further. }
      { by eapply components_inv_step. }
      exists V', comps'. split_and!; [done | done | set_solver |].
      intros m Hm. apply elem_of_cons in Hm as [-> |Hm]; [| by apply Hks].
      apply Hsub, elem_of_union_r, elem_of_list_to_set.
      by destruct Hpost as (_ & _ & ? & _).
Qed.

End Traversal.

Lemma elem_of_concat {A} (l : list (list A)) x :
  x ∈ concat l ↔ ∃ c, c ∈ l ∧ x ∈ c.
Proof.
  rewrite list_elem_of_In, in_concat. split.
  - intros (c & Hc & Hx). exists c. by rewrite !list_elem_of_In.
  - intros (c & Hc & Hx). exists c. by rewrite <- !list_elem_of_In.
Qed.

Lemma NoDup_concat_lookup {A} (l : list (list A)) i j ci cj x :
  NoDup (concat l) → l !! i = Some ci → l !! j = Some cj →
  x ∈ ci → x ∈ cj → i = j.
Proof.
  revert i j. induction l as [|c l IH]; intros i j Hnd Hi Hj Hxi Hxj.
  - by rewrite lookup_nil in Hi.
  - simpl in Hnd. apply NoDup_app in Hnd as (_ & Hdisj & Hnd).
    assert (Hin : ∀ n cn, l !! n = Some cn → x ∈ cn → x ∈ concat l).
    { intros n cn Hn Hx. apply elem_of_concat. exists cn.
      split; [by eapply list_elem_of_lookup_2 | done]. }
    destruct i as [|i], j as [|j]; simpl in *.
    + done.
    + injection Hi as <-. exfalso. by eapply Hdisj, Hin.
    + injection Hj as <-. exfalso. by eapply Hdisj, Hin.
    + f_equal. by apply IH.
Qed.

End GraphFacts.

Section ComponentsClaim.
Import Graph GraphFacts.

Lemma runComponents_spec (correlations : list EntityCorrelation) :
  ∃ visited components,
    runComponents correlations = Some (visited, components)
    ∧ components_inv (buildGraph correlations)
        (list_to_set (JsMap.keys (buildGraph correlations))) visited components
    ∧ ∀ k, k ∈ JsMap.keys (buildGraph correlations) → k ∈ visited.
Proof.
  destruct (buildGraph_spec correlations) as (Hnd & Hkeys & Hnbrs).
  set (graph := buildGraph correlations) in *.
  set (K := list_to_set (JsMap.keys graph) : gset string).
  assert (HK : ∀ x y, y ∈ neighborsOf graph x → y ∈ K).
  { intros x y Hy. apply elem_of_list_to_set, Hkeys.
    apply Hnbrs in Hy as (c & Hc & H). exists c. split; [done |].
    destruct H as [[_ <-]|[<- _]]; auto. }
  assert (Hsym : ∀ x y, adjacent graph x y → adjacent graph y x).
  { unfold adjacent. intros x y Hy. apply Hnbrs. apply Hnbrs in Hy.
    by apply linked_sym. }
  assert (Hfuel : (size K ≤ length graph)%nat).
  { unfold K. rewrite size_list_to_set by done.
    unfold JsMap.keys. by rewrite length_map. }
  destruct (components_loop graph K HK Hsym (length graph) Hfuel
              (JsMap.keys graph) ∅ [])
    as (V' & comps' & Hrun & Hinv & _ & Hall).
  { intros k Hk. by apply elem_of_list_to_set. }
  { apply components_inv_init. }
  exists V', comps'. split_and!; done.
Qed.

(** C7. For every finite list of candidate edges the traversal of
    [findConnectedComponents] returns (the depth bound is never hit), and
    what it returns is a partition of the entities that occur as an end
    of some edge: every such entity lies in a component and nothing else
    does, no entity occurs twice (so it lies in exactly one component, at
    one position), and a component holds, with any of its members,
    exactly the entities reachable from it along edges taken as
    undirected, so each component is a maximal connected set. *)
Theorem findConnectedComponents_partition (correlations : list EntityCorrelation) :
  let components := findConnectedComponents correlations in
  (∃ visited, runComponents correlations = Some (visited, components))
  ∧ (∀ x, endpoint correlations x ↔ ∃ c, c ∈ components ∧ x ∈ c)
  ∧ NoDup (concat components)
  ∧ (∀ i j ci cj x,
       components !! i = Some ci → components !! j = Some cj →
       x ∈ ci → x ∈ cj → i = j)
  ∧ (∀ c, c ∈ components → c ≠ [])
  ∧ (∀ c x y, c ∈ components → x ∈ c →
       (y ∈ c ↔ connected correlations x y)).
Proof.
  destruct (runComponents_spec correlations)
    as (visited & comps & Hrun & (HV & Hnd & HVK & Hcl & Hall) & Hkeys).
  destruct (buildGraph_spec correlations) as (_ & Hend & Hnbrs).
  unfold findConnectedComponents. rewrite Hrun. cbn zeta.
  split_and!.
  - by exists visited.
  - intros x. rewrite <- elem_of_concat, <- Hend. split.
    + intros Hx. apply Hkeys in Hx. rewrite HV in Hx.
      by apply elem_of_list_to_set in Hx.
    + intros Hx. apply (elem_of_list_to_set (C := gset string)).
      apply HVK. rewrite HV. by apply elem_of_list_to_set.
  - done.
  - intros i j ci cj x. by apply NoDup_concat_lookup.
  - intros c Hc. rewrite Forall_forall in Hall. by destruct (Hall c Hc).
  - intros c x y Hc Hx. rewrite Forall_forall in Hall.
    destruct (Hall c Hc) as (_ & Hclass). rewrite (Hclass x y Hx).
    unfold connected. split; apply rtc_subrel; intros a b Hab; by apply Hnbrs.
Qed.

End ComponentsClaim.

(** ** Threat chains *)

Section ThreatChainClaims.
Import Graph GraphFacts.


(** The chains pushed by the loop of [findThreatChains] are the analysed
    components that pass both tests. *)
Lemma elem_of_chainSteps correlations comps acc chain :
  chain ∈ fold_left (chainStep correlations) comps acc
  ↔ chain ∈ acc
    ∨ ∃ c, c ∈ comps ∧ (3 ≤ length c)%nat
           ∧ 5 # 10 < tc_riskScore (analyzeThreatChain c correlations)
           ∧ chain = analyzeThreatChain c correlations.
Proof.
  revert acc. induction comps as [|c comps IH]; intros acc; simpl.
  - split; [auto | intros [?|(c & Hc & _)]; [done | inversion Hc]].
  - rewrite IH. unfold chainStep.
    destruct (3 <=? length c)%nat eqn:Hlen.
    + apply Nat.leb_le in Hlen. cbn zeta.
      destruct (JsNum.gtb _ _) eqn:Hrisk.
      * apply JsNumFacts.gtb_spec in Hrisk.
        rewrite elem_of_app, list_elem_of_singleton. split.
        -- intros [[?| ->]|(c' & Hc' & H)]; [by left | |].
           ++ right. exists c. split; [apply list_elem_of_here | done].
           ++ right. exists c'. split; [by apply list_elem_of_further | done].
        -- intros [?|(c' & Hc' & H)]; [by left; left |].
           apply elem_of_cons in Hc' as [-> |Hc'].
           ++ left. right. by destruct H as (_ & _ & ->).
           ++ right. by exists c'.
      * split.
        -- intros [?|(c' & Hc' & H)]; [by left |].
           right. exists c'. split; [by apply list_elem_of_further | done].
        -- intros [?|(c' & Hc' & H)]; [by left |].
           apply elem_of_cons in Hc' as [-> |Hc']; [| right; by exists c'].
           exfalso. destruct H as (_ & Hgt & _).
           apply JsNumFacts.gtb_spec in Hgt. simpl in Hrisk. congruence.
    + apply Nat.leb_gt in Hlen. split.
      * intros [?|(c' & Hc' & H)]; [by left |].
        right. exists c'. split; [by apply list_elem_of_further | done].
      * intros [?|(c' & Hc' & H)]; [by left |].
        apply elem_of_cons in Hc' as [-> |Hc']; [| right; by exists c'].
        destruct H as (? & _). lia.
Qed.



Lemma correlateEvent_Ok config runQuery svc event result :
  correlateEvent config runQuery svc event = Ok result →
  threatChains result
  = findThreatChains (map (λ occ, ent_id occ.2) (entityOccurrences event))
                     (correlations result).
Proof.
  unfold correlateEvent. destruct (negb _); [discriminate |].
  destruct (fold_left _ _ _) as [[corrs total] count].
  intros [= <-]. reflexivity.
Qed.




Lemma uniqueTypes_spec (types : list RelationshipType) :
  (∀ t, JsSet.includes (JsSet.ofList types) t = bool_decide (t ∈ types))
  ∧ length (JsSet.ofList types) = length (remove_dups types).
Proof.
  destruct (JsSetFacts.ofList_spec types) as [Hnd Hel]. split.
  - intros t. unfold JsSet.includes. apply bool_decide_ext, Hel.
  - apply Permutation_length, NoDup_Permutation; [done | apply NoDup_remove_dups |].
    intros t. by rewrite Hel, elem_of_remove_dups.
Qed.




End ThreatChainClaims.

(** ** Behavioral engine *)

Section BehavioralClaims.
Import Behavioral.


(** The baseline that one pass of the entity loop of [updateBaseline]
    works on: the stored one, or the one it has just created. *)
Definition baselineBefore (store : gmap string BehavioralBaseline)
    (occ : string * EntityInfo) : BehavioralBaseline :=
  default (initialBaseline (ent_id occ.2) occ.1) (store !! ent_id occ.2).

Lemma updateBaselineStep_lookup config event store occ :
  updateBaselineStep config event store occ !! ent_id occ.2
  = Some (updatedBaseline config event (baselineBefore store occ)).
Proof.
  unfold updateBaselineStep, baselineBefore, createInitialBaseline.
  destruct (store !! ent_id occ.2) as [b|] eqn:E; simpl.
  - rewrite E. unfold updateEntityBaseline. simpl.
    destruct (decide (entityId b = ent_id occ.2)) as [->|Hne].
    + by rewrite lookup_insert_eq.
    + rewrite lookup_insert_ne by done. by rewrite lookup_insert_eq.
  - rewrite lookup_insert_eq. unfold updateEntityBaseline. simpl.
    by rewrite lookup_insert_eq.
Qed.


(** The confidence of a baseline lies between the value it is created
    with and the cap. *)
Definition confidenceInRange (b : BehavioralBaseline) : Prop :=
  1 # 10 <= confidence b ∧ confidence b <= 1.

Lemma initialBaseline_inRange id t : confidenceInRange (initialBaseline id t).
Proof. split; simpl; discriminate. Qed.

Lemma updatedBaseline_inRange config event b :
  confidenceInRange b → confidenceInRange (updatedBaseline config event b).
Proof.
  intros [Hlo Hhi]. split; simpl.
  - apply Q.min_glb; [discriminate |].
    apply Qle_trans with (confidence b); [done |].
    rewrite <- (Qplus_0_r (confidence b)) at 1. apply Qplus_le_r. discriminate.
  - apply Q.le_min_l.
Qed.

(** Every operation of the service on the baseline map keeps all
    confidences in range: a baseline that the service has created and
    maintained itself never has a confidence above the cap. *)
Lemma updateBaselineStep_inRange config event store occ :
  map_Forall (λ _ b, confidenceInRange b) store →
  map_Forall (λ _ b, confidenceInRange b) (updateBaselineStep config event store occ).
Proof.
  intros Hall. unfold updateBaselineStep, createInitialBaseline.
  destruct (store !! ent_id occ.2) as [b|] eqn:E.
  - rewrite E. unfold updateEntityBaseline.
    assert (confidenceInRange (updatedBaseline config event b))
      by (apply updatedBaseline_inRange; by eapply Hall).
    by repeat apply map_Forall_insert_2.
  - rewrite lookup_insert_eq. unfold updateEntityBaseline.
    assert (confidenceInRange
              (updatedBaseline config event (initialBaseline (ent_id occ.2) occ.1)))
      by apply updatedBaseline_inRange, initialBaseline_inRange.
    repeat apply map_Forall_insert_2; try done.
Qed.

Lemma updateBaseline_inRange config event svc :
  map_Forall (λ _ b, confidenceInRange b) (baselines svc) →
  map_Forall (λ _ b, confidenceInRange b)
             (baselines (updateBaseline config event svc)).
Proof.
  unfold updateBaseline. simpl. generalize (baselines svc).
  induction (entityOccurrences event) as [|occ occs IH]; intros store Hall; simpl.
  - done.
  - by apply IH, updateBaselineStep_inRange.
Qed.

Lemma processFeedback_inRange feedbackEntityId isFalsePositive svc :
  map_Forall (λ _ b, confidenceInRange b) (baselines svc) →
  map_Forall (λ _ b, confidenceInRange b)
             (baselines (processFeedback feedbackEntityId isFalsePositive svc)).
Proof.
  intros Hall. unfold processFeedback.
  destruct feedbackEntityId as [eid|]; [| done].
  destruct (String.eqb eid ""); [done |].
  destruct isFalsePositive; [| done].
  destruct (baselines svc !! eid) as [b|] eqn:E; [| done]. simpl.
  apply map_Forall_insert_2; [| done].
  destruct (Hall eid b E) as [Hlo Hhi]. split; simpl.
  - apply Q.le_max_l.
  - apply Q.max_lub; [discriminate |].
    apply Qle_trans with (confidence b); [| done].
    rewrite <- (Qplus_0_r (confidence b)) at 2. apply Qplus_le_r. discriminate.
Qed.

(** The per-entity analyses that the entity loop of [analyzeEvent]
    obtains, in order, and the baseline map it ends with. *)
Fixpoint entityAnalyses (config : BehavioralConfig) (event : SecurityEvent)
    (occs : list (string * EntityInfo)) (store : gmap string BehavioralBaseline)
  : list EntityAnalysis * gmap string BehavioralBaseline :=
  match occs with
  | [] => ([], store)
  | occ :: occs' =>
      let '(a, store1) := analyzeEntityBehavior config occ.2 event store in
      let '(rest, store2) := entityAnalyses config event occs' store1 in
      (a :: rest, store2)
  end.

Lemma analyzeEvent_loop config event occs anoms risk conf count store :
  ∃ risk' conf' count',
    fold_left (analyzeEventStep config event) occs (anoms, risk, conf, count, store)
    = (anoms ++ concat (map ea_anomalies (entityAnalyses config event occs store).1),
       risk', conf', count', (entityAnalyses config event occs store).2).
Proof.
  revert anoms risk conf count store.
  induction occs as [|occ occs IH]; intros anoms risk conf count store; simpl.
  - exists risk, conf, count. by rewrite app_nil_r.
  - destruct (analyzeEntityBehavior config occ.2 event store) as [a store1] eqn:Ea.
    destruct (entityAnalyses config event occs store1) as [rest store2] eqn:Er.
    simpl. destruct (0 <? length (ea_anomalies a))%nat eqn:Elen.
    + destruct (IH (anoms ++ ea_anomalies a) (risk + ea_riskScore a)
                   (conf + ea_confidence a) (S count) store1)
        as (risk' & conf' & count' & ->).
      exists risk', conf', count'. rewrite Er. simpl. by rewrite app_assoc.
    + destruct (IH anoms risk conf count store1) as (risk' & conf' & count' & ->).
      exists risk', conf', count'. rewrite Er. simpl.
      apply Nat.ltb_ge in Elen. destruct (ea_anomalies a); [done | simpl in Elen; lia].
Qed.

Lemma analyzeEntityBehavior_cold config entity event store :
  store !! ent_id entity = None →
  analyzeEntityBehavior config entity event store
  = (noAnomalies,
     <[ent_id entity := initialBaseline (ent_id entity) (ent_type entity)]> store).
Proof. intros H. unfold analyzeEntityBehavior. by rewrite H. Qed.

Lemma analyzeEntityBehavior_known config entity event store b :
  store !! ent_id entity = Some b →
  (analyzeEntityBehavior config entity event store).2 = store.
Proof.
  intros H. unfold analyzeEntityBehavior. rewrite H.
  by destruct (fold_left _ _ _) as [[[? ?] ?] ?].
Qed.



(** Analysis never touches a baseline that is already stored. *)
Lemma analyzeEntityBehavior_keeps config entity event store id b :
  store !! id = Some b →
  (analyzeEntityBehavior config entity event store).2 !! id = Some b.
Proof.
  intros Hb. destruct (store !! ent_id entity) as [b'|] eqn:Eb.
  - by rewrite (analyzeEntityBehavior_known _ _ _ _ _ Eb).
  - rewrite analyzeEntityBehavior_cold by done. simpl.
    rewrite lookup_insert_ne; [done | congruence].
Qed.

Lemma entityAnalyses_keeps config event occs store id b :
  store !! id = Some b →
  (entityAnalyses config event occs store).2 !! id = Some b.
Proof.
  revert store. induction occs as [|occ occs IH]; intros store Hb; simpl; [done |].
  pose proof (analyzeEntityBehavior_keeps config occ.2 event store id b Hb) as Hk.
  destruct (analyzeEntityBehavior config occ.2 event store) as [a store1].
  specialize (IH store1 Hk).
  by destruct (entityAnalyses config event occs store1).
Qed.





End BehavioralClaims.

(** ** Orchestrator *)

Section AgentClaims.
Import Agent.

Variable behavioralConfig : Behavioral.BehavioralConfig.
Variable graphConfig : Graph.GraphConfig.
Variable runQuery : string -> Q -> option (list Graph.QueryRecord).
Variable generateCompletion : string -> Result string.
Variable parseJSONResponse : string -> Result LLM.Answer.
Variable Enrichment : Type.
Variable enrichEvent : SecurityEvent -> Result Enrichment.
Variable updateWithEvent : SecurityEvent -> Result unit.
Variable buildRuleEvaluationPrompt :
  DetectionRule -> SecurityEvent -> RuleContext Enrichment -> string.

Local Abbreviation pipeline :=
  (processEventPipeline behavioralConfig graphConfig runQuery generateCompletion
     parseJSONResponse Enrichment enrichEvent updateWithEvent
     buildRuleEvaluationPrompt).





Local Abbreviation agentEvaluateRule :=
  (evaluateRule generateCompletion parseJSONResponse Enrichment
     buildRuleEvaluationPrompt).
Local Abbreviation rulesStep :=
  (evaluateRulesStep generateCompletion parseJSONResponse Enrichment
     buildRuleEvaluationPrompt).
Local Abbreviation agentEvaluateRules :=
  (evaluateRules generateCompletion parseJSONResponse Enrichment
     buildRuleEvaluationPrompt).

(** The oracle call for a prompt fails: the LLM service refuses it
    because it is not initialised, or the completion call throws (an
    error, or a timeout raised by the client), or its reply does not
    parse. *)
Definition oracleFails (llmReady : bool) (prompt : string) : Prop :=
  llmReady = false
  ∨ ∃ message,
      LLM.completeAndParse generateCompletion parseJSONResponse prompt
      = Throw message.

Lemma evaluateRule_oracleFails llmReady rule event context :
  oracleFails llmReady (buildRuleEvaluationPrompt rule event context) →
  LLM.matches (agentEvaluateRule llmReady rule event context) = false
  ∧ LLM.confidence (agentEvaluateRule llmReady rule event context) = 0.
Proof.
  unfold evaluateRule, LLM.evaluateRule.
  intros [-> |[message ->]]; simpl; [done |].
  by destruct llmReady.
Qed.

(** C8. When the oracle call for a rule fails, [evaluateRule] returns
    matches = false and confidence = 0; the pass of the rule loop for
    that rule leaves matchedRules, needsRecommendation and the
    false-positive risk as they were, so that the result of
    [evaluateRules] is the one obtained without the rule; and the
    rule-evaluation stage of the pipeline returns normally. *)
Theorem evaluateRule_degraded llmReady rule event context :
  oracleFails llmReady (buildRuleEvaluationPrompt rule event context) →
  LLM.matches (agentEvaluateRule llmReady rule event context) = false
  ∧ LLM.confidence (agentEvaluateRule llmReady rule event context) = 0
  ∧ (∀ acc, rulesStep llmReady event context acc rule = acc)
  ∧ (∀ before after,
       agentEvaluateRules llmReady (before ++ rule :: after) event context
       = agentEvaluateRules llmReady (before ++ after) event context)
  ∧ (∀ st, llmInitialized st = llmReady →
       ∃ st',
         evaluateRulesM generateCompletion parseJSONResponse Enrichment
           buildRuleEvaluationPrompt event context st
         = (Ok (agentEvaluateRules llmReady (JsMap.values (activeRules st))
                  event context), st')).
Proof.
  intros Hfail.
  destruct (evaluateRule_oracleFails _ _ _ _ Hfail) as [Hm Hc].
  assert (Hstep : ∀ acc, rulesStep llmReady event context acc rule = acc).
  { intros [[matched needsRec] fpRisk]. unfold evaluateRulesStep.
    by rewrite Hm. }
  split_and!; [done | done | done | |].
  - intros before after. unfold evaluateRules.
    rewrite !fold_left_app. simpl. by rewrite Hstep.
  - intros st <-. eexists. reflexivity.
Qed.

(** C9. After [updateRulePerformance] for a known rule the recorded
    accuracy and precision are the same number,
    truePositives / (truePositives + falsePositives) over the new
    counters, whose sum is positive; the count of false negatives is
    not changed and has no influence on the accuracy. *)
Theorem updateRulePerformance_accuracy ruleId isFalsePositive rules rule :
  JsMap.get rules ruleId = Some rule →
  ∃ rule',
    JsMap.get (updateRulePerformance ruleId isFalsePositive rules) ruleId
    = Some rule'
    ∧ accuracy (performance rule') = precision (performance rule')
    ∧ accuracy (performance rule')
      == JsNum.ofNat (truePositives (performance rule'))
         / (JsNum.ofNat (truePositives (performance rule'))
            + JsNum.ofNat (falsePositives (performance rule')))
    ∧ (0 < truePositives (performance rule')
           + falsePositives (performance rule'))%nat
    ∧ (truePositives (performance rule') + falsePositives (performance rule')
       = S (truePositives (performance rule) + falsePositives (performance rule)))%nat
    ∧ falseNegatives (performance rule') = falseNegatives (performance rule)
    ∧ ∀ other,
        truePositives other = truePositives (performance rule) →
        falsePositives other = falsePositives (performance rule) →
        accuracy (updatedPerformance isFalsePositive other)
        = accuracy (performance rule').
Proof.
  intros Hget. unfold updateRulePerformance. rewrite Hget.
  eexists. split; [apply JsMapFacts.get_set_eq |]. simpl.
  split_and!; [reflexivity | reflexivity | | | reflexivity |].
  - destruct isFalsePositive; lia.
  - destruct isFalsePositive; lia.
  - intros other Htp Hfp. by rewrite Htp, Hfp.
Qed.

Lemma includes_empty s : JsString.includes s "" = true.
Proof. by destruct s. Qed.

(** A rule with no MITRE technique, or whose first technique is the
    empty string. *)
Definition noTechnique (rule : DetectionRule) : Prop :=
  mitreTechniques (metadata rule) = []
  ∨ head (mitreTechniques (metadata rule)) = Some "".

Lemma hasSimilarRule_noTechnique rule event :
  noTechnique rule → hasSimilarRule rule event = true.
Proof.
  unfold hasSimilarRule. intros [-> |Hhead].
  - by rewrite includes_empty.
  - destruct (mitreTechniques (metadata rule)) as [|t ts]; [discriminate |].
    injection Hhead as ->. simpl. by rewrite includes_empty.
Qed.

Lemma needsRecommendation_loop llmReady event context rules acc :
  (fold_left (rulesStep llmReady event context) rules acc).1.2 = true →
  acc.1.2 = true
  ∨ ∃ rule, rule ∈ rules
      ∧ LLM.matches (agentEvaluateRule llmReady rule event context) = true
      ∧ 8 # 10 < LLM.confidence (agentEvaluateRule llmReady rule event context)
      ∧ hasSimilarRule rule event = false.
Proof.
  revert acc. induction rules as [|rule rules IH]; intros acc; simpl; [auto |].
  intros H. apply IH in H as [H|(r & Hr & H)].
  - destruct acc as [[matched needsRec] fpRisk].
    unfold evaluateRulesStep in H.
    destruct (LLM.matches _) eqn:Hm; [| by left]. simpl in H.
    destruct (JsNum.gtb _ _ && negb _) eqn:Hc; [| by left].
    apply andb_true_iff in Hc as [Hgt Hsim].
    right. exists rule. split_and!; [apply list_elem_of_here | done | |].
    + by apply JsNumFacts.gtb_spec.
    + by apply negb_true_iff.
  - right. exists r. split; [by apply list_elem_of_further | done].
Qed.

(** C10. [needsRecommendation] comes out true only if some rule matched
    with confidence above 0.8 and [hasSimilarRule] was false for it.
    For a rule with no MITRE technique, or whose first technique is the
    empty string, [hasSimilarRule] is true for every event, so its pass
    of the rule loop leaves [needsRecommendation] as it was; a rule set
    made of such rules never sets it. *)
Theorem needsRecommendation_sources llmReady event context :
  (∀ rules,
     needsRecommendation (agentEvaluateRules llmReady rules event context) = true →
     ∃ rule, rule ∈ rules
       ∧ LLM.matches (agentEvaluateRule llmReady rule event context) = true
       ∧ 8 # 10 < LLM.confidence (agentEvaluateRule llmReady rule event context)
       ∧ hasSimilarRule rule event = false)
  ∧ (∀ rule, noTechnique rule →
       hasSimilarRule rule event = true
       ∧ ∀ acc, (rulesStep llmReady event context acc rule).1.2 = acc.1.2)
  ∧ (∀ rules, Forall noTechnique rules →
       needsRecommendation (agentEvaluateRules llmReady rules event context) = false).
Proof.
  assert (Hloop : ∀ rules,
    needsRecommendation (agentEvaluateRules llmReady rules event context)
    = (fold_left (rulesStep llmReady event context) rules ([], false, 0)).1.2).
  { intros rules. unfold evaluateRules.
    by destruct (fold_left _ _ _) as [[? ?] ?]. }
  split_and!.
  - intros rules H. rewrite Hloop in H.
    apply needsRecommendation_loop in H as [H|H]; [discriminate | done].
  - intros rule Hrule. pose proof (hasSimilarRule_noTechnique rule event Hrule) as Hsim.
    split; [done |]. intros [[matched needsRec] fpRisk].
    unfold evaluateRulesStep. rewrite Hsim, andb_false_r.
    by destruct (LLM.matches _).
  - intros rules Hall. apply not_true_is_false. intros H. rewrite Hloop in H.
    apply needsRecommendation_loop in H as [H|(rule & Hin & _ & _ & Hsim)];
      [discriminate |].
    rewrite Forall_forall in Hall.
    rewrite (hasSimilarRule_noTechnique rule event (Hall rule Hin)) in Hsim.
    discriminate.
Qed.

End AgentClaims.

(** * Further properties *)

(** ** Sums and counts *)

Section NumberFacts.

Lemma ofNat_S n : JsNum.ofNat (S n) == JsNum.ofNat n + 1.
Proof.
  unfold JsNum.ofNat. rewrite Nat2Z.inj_succ, <- Z.add_1_r, inject_Z_plus. reflexivity.
Qed.

Lemma ofNat_pos n : (0 < n)%nat → 0 < JsNum.ofNat n.
Proof.
  intros H. unfold JsNum.ofNat. change 0 with (inject_Z 0). rewrite <- Zlt_Qlt. lia.
Qed.

Lemma ofNat_add n m : JsNum.ofNat (n + m) == JsNum.ofNat n + JsNum.ofNat m.
Proof. unfold JsNum.ofNat. by rewrite Nat2Z.inj_add, inject_Z_plus. Qed.

Lemma sumBy_from {A} (f : A → Q) (xs : list A) (a : Q) :
  fold_left (λ sum x, sum + f x) xs a == a + JsNum.sumBy f xs.
Proof.
  unfold JsNum.sumBy. revert a. induction xs as [|x xs IH]; intros a; simpl.
  - ring.
  - rewrite IH, (IH (0 + f x)). ring.
Qed.

Lemma sumBy_cons {A} (f : A → Q) x xs :
  JsNum.sumBy f (x :: xs) == f x + JsNum.sumBy f xs.
Proof. unfold JsNum.sumBy at 1. simpl. rewrite sumBy_from. ring. Qed.

Lemma sumBy_app {A} (f : A → Q) xs ys :
  JsNum.sumBy f (xs ++ ys) == JsNum.sumBy f xs + JsNum.sumBy f ys.
Proof.
  induction xs as [|x xs IH]; simpl.
  - unfold JsNum.sumBy at 2. simpl. ring.
  - rewrite !sumBy_cons, IH. ring.
Qed.

Lemma sumBy_bounds {A} (f : A → Q) (lo hi : Q) xs :
  Forall (λ x, lo <= f x <= hi) xs →
  lo * JsNum.ofNat (length xs) <= JsNum.sumBy f xs <= hi * JsNum.ofNat (length xs).
Proof.
  induction 1 as [|x xs [Hlo Hhi] _ IH]; simpl length.
  - unfold JsNum.sumBy, JsNum.ofNat. simpl. rewrite !Qmult_0_r. split; apply Qle_refl.
  - rewrite sumBy_cons, ofNat_S. destruct IH. split; lra.
Qed.

(** The mean of values that lie in a range lies in the range. *)
Lemma mean_bounds {A} (f : A → Q) (lo hi : Q) xs :
  xs ≠ [] → Forall (λ x, lo <= f x <= hi) xs →
  lo <= JsNum.sumBy f xs / JsNum.ofNat (length xs) <= hi.
Proof.
  intros Hne Hall. destruct (sumBy_bounds f lo hi xs Hall) as [Hlo Hhi].
  assert (Hpos : 0 < JsNum.ofNat (length xs)).
  { apply ofNat_pos. destruct xs; [done | simpl; lia]. }
  split.
  - apply Qle_shift_div_l; [done | lra].
  - apply Qle_shift_div_r; [done | lra].
Qed.

End NumberFacts.

(** ** Behavioral engine: feedback, store discipline, bounds *)

Section BehavioralInvariants.
Import Behavioral.

(** X1. A false-positive report for an entity with a baseline replaces
    its confidence by max(0.1, confidence − 0.05): the result is never
    below 0.1, is not above the old value when that was at least 0.1, and
    is exactly 0.1 once the old value is at most 0.15; the patterns and
    every other baseline stay as they were. *)
Theorem processFeedback_false_positive eid svc b :
  eid ≠ "" →
  baselines svc !! eid = Some b →
  ∃ b',
    baselines (processFeedback (Some eid) true svc) !! eid = Some b'
    ∧ confidence b' == Qmax (1 # 10) (confidence b - (5 # 100))
    ∧ 1 # 10 <= confidence b'
    ∧ (1 # 10 <= confidence b → confidence b' <= confidence b)
    ∧ (confidence b <= 15 # 100 → confidence b' == 1 # 10)
    ∧ patterns b' = patterns b
    ∧ entityId b' = entityId b
    ∧ (∀ k, k ≠ eid →
         baselines (processFeedback (Some eid) true svc) !! k = baselines svc !! k)
    ∧ isInitialized (processFeedback (Some eid) true svc) = isInitialized svc.
Proof.
  intros Hne Hb. unfold processFeedback.
  apply String.eqb_neq in Hne. rewrite Hne, Hb. simpl.
  eexists. split; [apply lookup_insert_eq |]. simpl.
  split_and!; try reflexivity.
  - apply Q.le_max_l.
  - intros Hlo. apply Q.max_lub; [done |]. lra.
  - intros Hlow. apply Q.max_l. lra.
  - intros k Hk. by rewrite lookup_insert_ne.
Qed.

(** Feedback that is not a false positive, names no entity, or names an
    entity without a baseline changes nothing. *)
Lemma processFeedback_noop feedbackEntityId isFalsePositive svc :
  isFalsePositive = false
  ∨ feedbackEntityId = None
  ∨ feedbackEntityId = Some ""
  ∨ (∃ eid, feedbackEntityId = Some eid ∧ baselines svc !! eid = None) →
  processFeedback feedbackEntityId isFalsePositive svc = svc.
Proof.
  unfold processFeedback.
  intros [-> |[-> |[-> |(eid & -> & Hnone)]]]; try done.
  - destruct feedbackEntityId as [eid|]; [| done]. by destruct (String.eqb eid "").
  - rewrite Hnone. destruct (String.eqb eid ""); [done |]. by destruct isFalsePositive.
Qed.


Lemma analyzeEntityBehavior_store config entity event store :
  (analyzeEntityBehavior config entity event store).2
  = match store !! ent_id entity with
    | Some _ => store
    | None => <[ent_id entity := initialBaseline (ent_id entity) (ent_type entity)]> store
    end.
Proof.
  destruct (store !! ent_id entity) as [b|] eqn:E.
  - by rewrite (analyzeEntityBehavior_known _ _ _ _ _ E).
  - by rewrite analyzeEntityBehavior_cold.
Qed.



(** *** Bounds on what the analysis reports *)















(** *** The update step *)

(** Frequencies and variances of a baseline are not negative. *)
Definition statisticsNonneg (b : BehavioralBaseline) : Prop :=
  Forall (λ p, 0 <= frequency p ∧ 0 <= variance p) (patterns b).

Lemma extractPatternValue_nonneg event patternType :
  0 <= ev_riskScore event → 0 <= extractPatternValue event patternType.
Proof.
  intros Hrisk. unfold extractPatternValue.
  repeat (destruct (String.eqb patternType _);
          [first [apply JsNumFacts.ofNat_nonneg | exact Hrisk] |]).
  discriminate.
Qed.

Lemma updatePattern_nonneg config event p :
  0 <= learningRate config <= 1 →
  0 <= ev_riskScore event →
  0 <= frequency p ∧ 0 <= variance p →
  0 <= frequency (updatePattern config event p)
  ∧ 0 <= variance (updatePattern config event p).
Proof.
  intros [Hlo Hhi] Hrisk [Hf Hv]. unfold updatePattern. cbn [frequency variance].
  pose proof (extractPatternValue_nonneg event (pat_type p) Hrisk) as Hc.
  set (c := extractPatternValue event (pat_type p)) in *.
  set (lr := learningRate config) in *.
  assert (Hmix : ∀ x y, 0 <= x → 0 <= y → 0 <= (1 - lr) * x + lr * y).
  { intros x y Hx Hy.
    assert (0 <= (1 - lr) * x) by (apply Qmult_le_0_compat; lra).
    assert (0 <= lr * y) by (apply Qmult_le_0_compat; lra).
    lra. }
  split; [by apply Hmix |]. apply Hmix; [done | apply Qabs_nonneg].
Qed.

Lemma updatedBaseline_nonneg config event b :
  0 <= learningRate config <= 1 →
  0 <= ev_riskScore event →
  statisticsNonneg b → statisticsNonneg (updatedBaseline config event b).
Proof.
  intros Hlr Hrisk Hb. unfold statisticsNonneg in *. simpl.
  induction Hb as [|p ps Hp _ IH]; simpl; constructor; [| done].
  by apply updatePattern_nonneg.
Qed.

(** X5. With a learning rate in [0,1] and an event whose risk score is
    not negative, [updateBaseline] keeps every frequency and every
    variance in the store non-negative. *)
Theorem updateBaseline_statistics_nonneg config event svc :
  0 <= learningRate config <= 1 →
  0 <= ev_riskScore event →
  map_Forall (λ _ b, statisticsNonneg b) (baselines svc) →
  map_Forall (λ _ b, statisticsNonneg b)
             (baselines (updateBaseline config event svc)).
Proof.
  intros Hlr Hrisk. unfold updateBaseline. simpl. generalize (baselines svc).
  induction (entityOccurrences event) as [|occ occs IH]; intros store Hall; simpl;
    [done |].
  apply IH. unfold updateBaselineStep, createInitialBaseline.
  assert (Hinit : statisticsNonneg (initialBaseline (ent_id occ.2) occ.1)).
  { unfold statisticsNonneg. simpl. repeat constructor; discriminate. }
  destruct (store !! ent_id occ.2) as [b|] eqn:E.
  - rewrite E. unfold updateEntityBaseline.
    assert (statisticsNonneg (updatedBaseline config event b))
      by (apply updatedBaseline_nonneg; [done | done | by eapply Hall]).
    by repeat apply map_Forall_insert_2.
  - rewrite lookup_insert_eq. unfold updateEntityBaseline.
    assert (statisticsNonneg
              (updatedBaseline config event (initialBaseline (ent_id occ.2) occ.1)))
      by by apply updatedBaseline_nonneg.
    by repeat apply map_Forall_insert_2.
Qed.

(** [n] updates of a pattern with the same event. *)
Definition updateTimes (config : BehavioralConfig) (event : SecurityEvent)
    (n : nat) (p : BehaviorPattern) : BehaviorPattern :=
  Nat.iter n (updatePattern config event) p.

Lemma updateTimes_S config event n p :
  updateTimes config event (S n) p
  = updatePattern config event (updateTimes config event n p).
Proof. reflexivity. Qed.

Lemma updateTimes_type config event n p :
  pat_type (updateTimes config event n p) = pat_type p.
Proof. induction n as [|n IH]; [done |]. rewrite updateTimes_S. exact IH. Qed.

(** X6. Updating a pattern [n] times with events that carry the same
    value moves its frequency towards that value geometrically: the
    remaining distance is (1 − learningRate)^n times the initial one.  For
    a learning rate in [0,1] the distance therefore never grows. *)
Theorem updatePattern_converges config event n p :
  let current := extractPatternValue event (pat_type p) in
  frequency (updateTimes config event n p) - current
  == (1 - learningRate config) ^ Z.of_nat n * (frequency p - current)
  ∧ (0 <= learningRate config <= 1 →
     Qabs (frequency (updateTimes config event (S n) p) - current)
     <= Qabs (frequency (updateTimes config event n p) - current)).
Proof.
  cbv zeta. set (current := extractPatternValue event (pat_type p)).
  set (lr := learningRate config).
  assert (Hstep : ∀ m,
    frequency (updateTimes config event (S m) p) - current
    == (1 - lr) * (frequency (updateTimes config event m p) - current)).
  { intros m. rewrite updateTimes_S. unfold updatePattern.
    cbn [frequency]. rewrite updateTimes_type. fold current lr. ring. }
  split.
  - induction n as [|n IH].
    + simpl. ring.
    + rewrite Hstep, IH, Nat2Z.inj_succ, <- Z.add_1_r.
      rewrite Qpower_plus' by lia. rewrite Qpower_1_r. ring.
  - intros [Hlo Hhi]. rewrite Hstep, Qabs_Qmult.
    rewrite (Qabs_pos (1 - lr)) by lra.
    pose proof (Qabs_nonneg (frequency (updateTimes config event n p) - current)) as Hd.
    set (d := Qabs _) in *.
    rewrite <- (Qmult_1_l d) at 2. apply Qmult_le_compat_r; [lra | done].
Qed.

Definition timingTotal (t : TimingPattern) : nat :=
  (businessHours t + afterHours t + weekends t)%nat.

(** X7. [updateTimingPattern] counts the event in exactly one of the
    three buckets, leaves [holidays] alone, and records the hour among the
    peak hours without ever listing an hour twice. *)
Theorem updateTimingPattern_counts t ts :
  let t' := updateTimingPattern t ts in
  timingTotal t' = S (timingTotal t)
  ∧ (businessHours t ≤ businessHours t')%nat
  ∧ (afterHours t ≤ afterHours t')%nat
  ∧ (weekends t ≤ weekends t')%nat
  ∧ holidays t' = holidays t
  ∧ getHours ts ∈ peakHours t'
  ∧ (∀ h, h ∈ peakHours t' ↔ h ∈ peakHours t ∨ h = getHours ts)
  ∧ (NoDup (peakHours t) → NoDup (peakHours t')).
Proof.
  cbv zeta. unfold updateTimingPattern, timingTotal.
  set (weekend := ((getDay ts =? 0)%nat || (getDay ts =? 6)%nat)).
  set (business := ((9 <=? getHours ts)%nat && (getHours ts <=? 17)%nat)).
  assert (Hpeak : ∀ l,
    (getHours ts ∈ (if existsb (Nat.eqb (getHours ts)) l then l else l ++ [getHours ts]))
    ∧ (∀ h, h ∈ (if existsb (Nat.eqb (getHours ts)) l then l else l ++ [getHours ts])
           ↔ h ∈ l ∨ h = getHours ts)
    ∧ (NoDup l →
       NoDup (if existsb (Nat.eqb (getHours ts)) l then l else l ++ [getHours ts]))).
  { intros l. destruct (existsb _ l) eqn:E.
    - apply existsb_exists in E as (x & Hx & Heq). apply Nat.eqb_eq in Heq. subst x.
      apply list_elem_of_In in Hx. split_and!; [done | | done].
      intros h. split; [auto | intros [?| ->]; done].
    - assert (Hnin : getHours ts ∉ l).
      { intros Hin. apply list_elem_of_In in Hin.
        assert (existsb (Nat.eqb (getHours ts)) l = true); [| congruence].
        apply existsb_exists. exists (getHours ts). split; [done | apply Nat.eqb_refl]. }
      split_and!.
      + apply elem_of_app. right. apply list_elem_of_here.
      + intros h. rewrite elem_of_app, list_elem_of_singleton. tauto.
      + intros Hnd. apply NoDup_app. split_and!; [done | | apply NoDup_singleton].
        intros x Hx Hx'. apply list_elem_of_singleton in Hx'. by subst. }
  destruct (Hpeak (peakHours t)) as (Hin & Hiff & Hnd).
  destruct business, weekend; simpl; split_and!; try done; lia.
Qed.


(** *** Keys of the baseline map *)

(** Every baseline is stored under its own [entityId]. *)
Definition wellKeyed (store : gmap string BehavioralBaseline) : Prop :=
  map_Forall (λ k b, entityId b = k) store.

Lemma updateBaselineStep_wellKeyed config event store occ :
  wellKeyed store →
  wellKeyed (updateBaselineStep config event store occ)
  ∧ ∀ k, k ≠ ent_id occ.2 →
      updateBaselineStep config event store occ !! k = store !! k.
Proof.
  intros Hwk. unfold updateBaselineStep, createInitialBaseline.
  destruct (store !! ent_id occ.2) as [b|] eqn:E.
  - rewrite E. unfold updateEntityBaseline. simpl.
    rewrite (Hwk _ _ E). rewrite insert_insert_eq. split.
    + apply map_Forall_insert_2; [simpl; by apply (Hwk _ _ E) | done].
    + intros k Hk. by rewrite lookup_insert_ne.
  - rewrite lookup_insert_eq. unfold updateEntityBaseline. simpl.
    rewrite !insert_insert_eq. split.
    + by apply map_Forall_insert_2.
    + intros k Hk. by rewrite lookup_insert_ne.
Qed.

Lemma updateBaseline_fold_frame config event occs store :
  wellKeyed store →
  wellKeyed (fold_left (updateBaselineStep config event) occs store)
  ∧ (∀ k, k ∉ map (λ occ, ent_id occ.2) occs →
       fold_left (updateBaselineStep config event) occs store !! k = store !! k)
  ∧ (∀ k, k ∈ map (λ occ, ent_id occ.2) occs →
       is_Some (fold_left (updateBaselineStep config event) occs store !! k)).
Proof.
  revert store. induction occs as [|occ occs IH]; intros store Hwk; simpl.
  - split_and!; [done | done | intros k Hk; inversion Hk].
  - destruct (updateBaselineStep_wellKeyed config event store occ Hwk) as [Hwk1 Hfr1].
    destruct (IH _ Hwk1) as (Hwk2 & Hfr2 & Hin2). split_and!; [done | |].
    + intros k Hk. apply not_elem_of_cons in Hk as [Hne Hk].
      rewrite Hfr2 by done. by apply Hfr1.
    + intros k Hk.
      destruct (decide (k ∈ map (λ occ, ent_id occ.2) occs)) as [Hin|Hnin];
        [by apply Hin2 |].
      apply elem_of_cons in Hk as [-> |Hk]; [| done].
      rewrite Hfr2 by done. rewrite updateBaselineStep_lookup. eauto.
Qed.


Lemma analyzeEvent_baselines config event svc :
  isInitialized svc = true →
  baselines (analyzeEvent config event svc).2
  = (entityAnalyses config event (entityOccurrences event) (baselines svc)).2.
Proof.
  intros Hinit. unfold analyzeEvent. rewrite Hinit. simpl.
  by destruct (analyzeEvent_loop config event (entityOccurrences event)
                 [] 0 0 0%nat (baselines svc)) as (risk' & conf' & count' & ->).
Qed.

Lemma entityAnalyses_wellKeyed config event occs store :
  wellKeyed store → wellKeyed (entityAnalyses config event occs store).2.
Proof.
  revert store. induction occs as [|occ occs IH]; intros store Hwk; simpl; [done |].
  pose proof (analyzeEntityBehavior_store config occ.2 event store) as Hs.
  destruct (analyzeEntityBehavior config occ.2 event store) as [a store1].
  simpl in Hs. specialize (IH store1).
  destruct (entityAnalyses config event occs store1) as [rest store2].
  simpl in *. apply IH. subst store1.
  destruct (store !! ent_id occ.2); [done |]. by apply map_Forall_insert_2.
Qed.

(** X9. Analysis, update and feedback all keep every baseline stored
    under its own id. *)
Theorem wellKeyed_preserved config event svc feedbackEntityId isFalsePositive :
  wellKeyed (baselines svc) →
  wellKeyed (baselines (analyzeEvent config event svc).2)
  ∧ wellKeyed (baselines (updateBaseline config event svc))
  ∧ wellKeyed (baselines (processFeedback feedbackEntityId isFalsePositive svc)).
Proof.
  intros Hwk. split_and!.
  - destruct (isInitialized svc) eqn:Hinit.
    + rewrite analyzeEvent_baselines by done. by apply entityAnalyses_wellKeyed.
    + unfold analyzeEvent. by rewrite Hinit.
  - apply (updateBaseline_fold_frame config event _ _ Hwk).
  - unfold processFeedback. destruct feedbackEntityId as [eid|]; [| done].
    destruct (String.eqb eid ""); [done |]. destruct isFalsePositive; [| done].
    destruct (baselines svc !! eid) as [b|] eqn:E; [| done]. simpl.
    apply map_Forall_insert_2; [| done]. simpl. by apply (Hwk _ _ E).
Qed.





End BehavioralInvariants.

(** ** Graph engine: candidates, scores, chains *)

Section GraphBounds.
Import Graph GraphFacts.

Section Candidates.

Variable config : GraphConfig.
Variable runQuery : string → Q → option (list QueryRecord).

(** The cut-off that [findEntityCorrelations] hands to the database. *)
Definition cutoffOf (timestamp : Timestamp) : Q :=
  inject_Z (getTime timestamp) - correlationWindow config * 60 * 60 * 1000.

(** A candidate edge comes from a row that the query for its source
    returned. *)
Definition fromRow (timestamp : Timestamp) (c : EntityCorrelation) : Prop :=
  ∃ rows row,
    runQuery (sourceEntity c) (cutoffOf timestamp) = Some rows
    ∧ row ∈ rows
    ∧ targetEntity c = qr_targetId row
    ∧ relationship c = qr_relationship row
    ∧ strength c = qr_strength row
    ∧ corr_confidence c = qr_confidence row.

Lemma findEntityCorrelations_sound svc entityId timestamp c :
  c ∈ findEntityCorrelations config runQuery svc entityId timestamp →
  sourceEntity c = entityId
  ∧ minCorrelationStrength config <= strength c
  ∧ fromRow timestamp c.
Proof.
  unfold findEntityCorrelations. destruct (negb _); [intros H; inversion H |].
  fold (cutoffOf timestamp).
  destruct (runQuery entityId (cutoffOf timestamp)) as [rows|] eqn:E;
    [| intros H; inversion H].
  intros Hc. apply list_elem_of_In, in_map_iff in Hc as (row & <- & Hrow).
  apply filter_In in Hrow as [Hrow Hge]. apply JsNumFacts.geb_spec in Hge.
  simpl. split_and!; [done | done |].
  exists rows, row. simpl. rewrite E. split_and!; try done. by apply list_elem_of_In.
Qed.

(** The three accumulators of the entity loop of [correlateEvent]. *)
Lemma correlateEvent_loop svc timestamp occs corrs total count :
  let acc' := fold_left (correlateStep config runQuery svc timestamp) occs
                        (corrs, total, count) in
  let found :=
    concat (map (λ occ, findEntityCorrelations config runQuery svc
                          (ent_id occ.2) timestamp) occs) in
  acc'.1.1 = corrs ++ found
  ∧ acc'.1.2 == total + JsNum.sumBy strength found
  ∧ acc'.2 = (count + length found)%nat.
Proof.
  revert corrs total count.
  induction occs as [|occ occs IH]; intros corrs total count; simpl.
  - rewrite app_nil_r. split_and!; [done | unfold JsNum.sumBy; simpl; ring | lia].
  - set (here := findEntityCorrelations config runQuery svc (ent_id occ.2) timestamp).
    clearbody here. destruct (0 <? length here)%nat eqn:E.
    + destruct (IH (corrs ++ here) (total + JsNum.sumBy strength here)
                   (count + length here)%nat) as (H1 & H2 & H3).
      split_and!.
      * by rewrite H1, app_assoc.
      * rewrite H2, sumBy_app. ring.
      * rewrite H3, length_app. lia.
    + apply Nat.ltb_ge in E.
      assert (Hnil : here = []) by (destruct here; [done | simpl in E; lia]).
      subst here. destruct (IH (corrs ++ []) total count) as (H1 & H2 & H3).
      simpl. split_and!; [by rewrite H1, app_nil_r | done | done].
Qed.

(** The edges that the queries for the event's entities return, in the
    order of the entities. *)
Definition foundEdges (svc : Service) (event : SecurityEvent) : list EntityCorrelation :=
  concat (map (λ occ, findEntityCorrelations config runQuery svc
                        (ent_id occ.2) (ev_timestamp event))
              (entityOccurrences event)).

Lemma correlateEvent_found svc event result :
  correlateEvent config runQuery svc event = Ok result →
  correlations result = foundEdges svc event
  ∧ (correlations result = [] → networkStrength result = 0)
  ∧ (correlations result ≠ [] →
     networkStrength result
     == JsNum.sumBy strength (correlations result)
        / JsNum.ofNat (length (correlations result))).
Proof.
  unfold correlateEvent. destruct (negb _); [discriminate |].
  destruct (correlateEvent_loop svc (ev_timestamp event) (entityOccurrences event)
              [] 0 0%nat) as (Hcorrs & Htotal & Hcount).
  destruct (fold_left _ _ _) as [[corrs total] count]. simpl in *.
  intros [= <-]. simpl. fold (foundEdges svc event) in *.
  rewrite <- Hcorrs in *. subst count. split_and!; [done | by intros -> |].
  intros Hne.
  assert (Hlen : (0 <? length corrs)%nat = true).
  { apply Nat.ltb_lt. destruct corrs; [done | simpl; lia]. }
  rewrite Hlen, Htotal. unfold Qdiv. ring.
Qed.

Lemma foundEdges_sound svc event c :
  c ∈ foundEdges svc event →
  sourceEntity c ∈ map (λ occ, ent_id occ.2) (entityOccurrences event)
  ∧ minCorrelationStrength config <= strength c
  ∧ fromRow (ev_timestamp event) c.
Proof.
  intros Hc. apply elem_of_concat in Hc as (l & Hl & Hc).
  apply list_elem_of_In, in_map_iff in Hl as (occ & <- & Hocc).
  destruct (findEntityCorrelations_sound _ _ _ _ Hc) as (Hsrc & Hmin & Hrow).
  split_and!; [| done | done].
  rewrite Hsrc. apply list_elem_of_In, in_map_iff. eauto.
Qed.

(** X11. Every candidate edge in the result of [correlateEvent] has one
    of the event's entities as its source, has a strength of at least
    [minCorrelationStrength], and comes from a row that the database
    returned for that source. *)
Theorem correlateEvent_candidates svc event result :
  correlateEvent config runQuery svc event = Ok result →
  ∀ c, c ∈ correlations result →
    sourceEntity c ∈ map (λ occ, ent_id occ.2) (entityOccurrences event)
    ∧ minCorrelationStrength config <= strength c
    ∧ fromRow (ev_timestamp event) c.
Proof.
  intros Hok c Hc. destruct (correlateEvent_found svc event result Hok) as (Heq & _).
  rewrite Heq in Hc. by apply (foundEdges_sound svc).
Qed.

(** X12. [networkStrength] is the mean strength of the candidate edges,
    and 0 when there are none; so it is 0 or at least
    [minCorrelationStrength]. *)
Theorem correlateEvent_networkStrength svc event result :
  correlateEvent config runQuery svc event = Ok result →
  (correlations result = [] → networkStrength result == 0)
  ∧ (correlations result ≠ [] →
     networkStrength result
     == JsNum.sumBy strength (correlations result)
        / JsNum.ofNat (length (correlations result))
     ∧ minCorrelationStrength config <= networkStrength result).
Proof.
  intros Hok. destruct (correlateEvent_found svc event result Hok) as (Heq & Hnil & Hmean).
  split; [by intros ->%Hnil |]. intros Hne. specialize (Hmean Hne).
  split; [done |]. rewrite Hmean. rewrite Heq in *.
  assert (Hlow : minCorrelationStrength config * JsNum.ofNat (length (foundEdges svc event))
                 <= JsNum.sumBy strength (foundEdges svc event)).
  { assert (H : Forall (λ c, minCorrelationStrength config <= strength c)
                       (foundEdges svc event)).
    { apply Forall_forall. intros c Hc. by apply (foundEdges_sound svc event). }
    clear -H. induction H as [|c cs Hc _ IH]; simpl length.
    - unfold JsNum.sumBy, JsNum.ofNat. simpl. rewrite Qmult_0_r. apply Qle_refl.
    - rewrite sumBy_cons, ofNat_S. lra. }
  apply Qle_shift_div_l; [| done].
  apply ofNat_pos. destruct (foundEdges svc event); [done | simpl; lia].
Qed.

(** X13. When the engine has no driver, or every query to the database
    throws, an initialised engine still returns from [correlateEvent]:
    with no candidate edges, network strength 0, no threat chains and
    risk score 0.  An engine that is not initialised throws. *)
Theorem correlateEvent_degraded svc event :
  (isInitialized svc = false →
     ∃ message, correlateEvent config runQuery svc event = Throw message)
  ∧ (isInitialized svc = true →
     hasDriver svc = false ∨ (∀ entityId cutoff, runQuery entityId cutoff = None) →
     correlateEvent config runQuery svc event
     = Ok {| correlations := []; networkStrength := 0;
             threatChains := []; cr_riskScore := 0 |}).
Proof.
  split.
  - intros Hinit. unfold correlateEvent. rewrite Hinit. simpl. eauto.
  - intros Hinit Hdown. unfold correlateEvent. rewrite Hinit. simpl.
    assert (Hnone : ∀ entityId,
              findEntityCorrelations config runQuery svc entityId (ev_timestamp event)
              = []).
    { intros entityId. unfold findEntityCorrelations.
      destruct Hdown as [-> |Hq]; [done |].
      destruct (negb _); [done |]. by rewrite Hq. }
    assert (Hloop : ∀ occs,
              fold_left (correlateStep config runQuery svc (ev_timestamp event)) occs
                        ([], 0, 0%nat) = ([], 0, 0%nat)).
    { induction occs as [|occ occs IH]; simpl; [done |]. by rewrite Hnone. }
    rewrite Hloop. reflexivity.
Qed.


(** *** Scores *)

Definition edgeInUnit (c : EntityCorrelation) : Prop :=
  0 <= strength c <= 1 ∧ 0 <= corr_confidence c <= 1.

Lemma calculateChainRiskScore_unit ents edges :
  Forall edgeInUnit edges →
  0 <= calculateChainRiskScore ents edges <= 1.
Proof.
  intros Hall. unfold calculateChainRiskScore.
  destruct edges as [|e edges]; [split; discriminate |].
  change ((length (e :: edges) =? 0)%nat) with false. cbv iota zeta.
  assert (Hs : 0 <= JsNum.sumBy strength (e :: edges)
                    / JsNum.ofNat (length (e :: edges)) <= 1).
  { apply mean_bounds; [done |]. eapply Forall_impl; [exact Hall |].
    by intros c [? _]. }
  assert (Hc : 0 <= JsNum.sumBy corr_confidence (e :: edges)
                    / JsNum.ofNat (length (e :: edges)) <= 1).
  { apply mean_bounds; [done |]. eapply Forall_impl; [exact Hall |].
    by intros c [_ ?]. }
  assert (Hl : 0 <= Qmin 1 (JsNum.ofNat (length ents) / 10) <= 1).
  { split; [| apply Q.le_min_l]. apply Q.min_glb; [discriminate |].
    apply Qle_shift_div_l; [done |]. pose proof (JsNumFacts.ofNat_nonneg (length ents)).
    lra. }
  set (ms := _ / _) in Hs |- *. set (mc := _ / _) in Hc |- *.
  set (lf := Qmin _ _) in Hl |- *. split; lra.
Qed.

Lemma calculateRiskScore_unit corrs chains :
  Forall edgeInUnit corrs →
  Forall (λ chain, 0 <= tc_riskScore chain <= 1) chains →
  0 <= calculateRiskScore corrs chains <= 1.
Proof.
  intros Hcorrs Hchains. unfold calculateRiskScore.
  destruct ((length corrs =? 0)%nat && (length chains =? 0)%nat);
    [split; discriminate |].
  cbv zeta. split; [| apply Q.le_min_l]. apply Q.min_glb; [discriminate |].
  assert (Hr : 0 <= (if (0 <? length corrs)%nat
                     then JsNum.sumBy (λ corr, strength corr * corr_confidence corr) corrs
                          / JsNum.ofNat (length corrs)
                     else 0)).
  { destruct corrs as [|c corrs]; [discriminate |].
    change (0 <? length (c :: corrs))%nat with true. cbv iota.
    apply (mean_bounds _ 0 1); [done |]. eapply Forall_impl; [exact Hcorrs |].
    intros x [[? ?] [? ?]]. simpl. split; [by apply Qmult_le_0_compat |].
    rewrite <- (Qmult_1_l 1). apply Qmult_le_compat_nonneg; split; done. }
  assert (Hk : 0 <= (if (0 <? length chains)%nat
                     then JsNum.sumBy tc_riskScore chains / JsNum.ofNat (length chains)
                     else 0)).
  { destruct chains as [|ch chains]; [discriminate |].
    change (0 <? length (ch :: chains))%nat with true. cbv iota.
    by apply (mean_bounds _ 0 1). }
  set (a := if (0 <? length corrs)%nat then _ else _) in *.
  set (b := if (0 <? length chains)%nat then _ else _) in *. lra.
Qed.

(** Every row that the database returns has its strength and its
    confidence in [0,1]. *)
Definition rowsInUnit : Prop :=
  ∀ entityId cutoff rows row,
    runQuery entityId cutoff = Some rows → row ∈ rows →
    0 <= qr_strength row <= 1 ∧ 0 <= qr_confidence row <= 1.

(** X14. If the database holds only strengths and confidences in [0,1],
    then so are the network strength and the risk score that
    [correlateEvent] returns, and the risk score of each of its threat
    chains lies above 0.5 and is at most 1. *)
Theorem correlateEvent_scores_in_unit svc event result :
  rowsInUnit →
  correlateEvent config runQuery svc event = Ok result →
  0 <= networkStrength result <= 1
  ∧ 0 <= cr_riskScore result <= 1
  ∧ ∀ chain, chain ∈ threatChains result →
      5 # 10 < tc_riskScore chain ∧ tc_riskScore chain <= 1.
Proof.
  intros Hrows Hok.
  assert (Hunit : Forall edgeInUnit (correlations result)).
  { apply Forall_forall. intros c Hc.
    destruct (correlateEvent_found svc event result Hok) as (Heq & _).
    rewrite Heq in Hc.
    destruct (foundEdges_sound svc event c Hc)
      as (_ & _ & rows & row & Hq & Hrow & _ & _ & Hs & Hconf).
    unfold edgeInUnit. rewrite Hs, Hconf. by eapply Hrows. }
  destruct (correlateEvent_found svc event result Hok) as (_ & Hnil & Hmean).
  assert (Hchain : ∀ chain, chain ∈ threatChains result →
            5 # 10 < tc_riskScore chain ∧ tc_riskScore chain <= 1).
  { intros chain Hchain. rewrite (correlateEvent_Ok _ _ _ _ _ Hok) in Hchain.
    unfold findThreatChains in Hchain.
    apply elem_of_chainSteps in Hchain as [H|(c & _ & _ & Hrisk & ->)]; [inversion H |].
    split; [done |]. simpl. apply calculateChainRiskScore_unit.
    unfold chainCorrelations. apply Forall_forall. intros x Hx.
    apply list_elem_of_In, filter_In in Hx as [Hx _].
    rewrite Forall_forall in Hunit. by apply Hunit, list_elem_of_In. }
  split_and!; [| | | | done].
  - destruct (correlations result) as [|c cs] eqn:E.
    + rewrite Hnil by done. discriminate.
    + rewrite Hmean by done.
      apply (mean_bounds strength 0 1); [done |].
      eapply Forall_impl; [exact Hunit |]. by intros x [? _].
  - destruct (correlations result) as [|c cs] eqn:E.
    + rewrite Hnil by done. discriminate.
    + rewrite Hmean by done.
      apply (mean_bounds strength 0 1); [done |].
      eapply Forall_impl; [exact Hunit |]. by intros x [? _].
  - revert Hok. unfold correlateEvent. destruct (negb _); [discriminate |].
    destruct (fold_left _ _ _) as [[corrs total] count]. intros [= <-]. simpl in *.
    apply calculateRiskScore_unit; [done |]. apply Forall_forall.
    intros chain Hin. destruct (Hchain chain Hin). split; lra.
  - revert Hok. unfold correlateEvent. destruct (negb _); [discriminate |].
    destruct (fold_left _ _ _) as [[corrs total] count]. intros [= <-]. simpl in *.
    apply calculateRiskScore_unit; [done |]. apply Forall_forall.
    intros chain Hin. destruct (Hchain chain Hin). split; lra.
Qed.

End Candidates.

End GraphBounds.

(** ** Threat chains: shape and classification *)

Section ChainShape.
Import Graph GraphFacts.

(** The two tests a component passes to become a threat chain. *)
Definition isThreatChain (correlations : list EntityCorrelation)
    (component : list string) : bool :=
  (3 <=? length component)%nat
  && JsNum.gtb (tc_riskScore (analyzeThreatChain component correlations)) (5 # 10).

Lemma chainSteps_entities correlations comps acc :
  map entities (fold_left (chainStep correlations) comps acc)
  = map entities acc ++ List.filter (isThreatChain correlations) comps.
Proof.
  revert acc. induction comps as [|c comps IH]; intros acc; simpl.
  - by rewrite app_nil_r.
  - rewrite IH. unfold chainStep, isThreatChain.
    destruct (3 <=? length c)%nat; simpl; [| done].
    destruct (JsNum.gtb _ _); [| done].
    by rewrite map_app, <- app_assoc.
Qed.

Lemma filter_sublist {A} (f : A → bool) (l : list A) :
  List.filter f l `sublist_of` l.
Proof.
  induction l as [|x l IH]; simpl; [done |].
  destruct (f x); [by apply sublist_skip | by apply sublist_cons].
Qed.

Lemma concat_sublist {A} (l k : list (list A)) :
  l `sublist_of` k → concat l `sublist_of` concat k.
Proof.
  induction 1 as [|x l k _ IH|x l k _ IH]; simpl.
  - done.
  - by apply sublist_app.
  - by apply sublist_inserts_l.
Qed.

(** X15. The entity lists of the threat chains are some of the connected
    components, in the order of the components; no entity lies in two
    chains; the members of a chain are connected to one another; and
    every candidate edge that touches a chain at either end is one of
    the chain's edges. *)
Theorem findThreatChains_shape eventEntities correlations :
  let chains := findThreatChains eventEntities correlations in
  map entities chains `sublist_of` findConnectedComponents correlations
  ∧ NoDup (concat (map entities chains))
  ∧ (∀ chain x y, chain ∈ chains → x ∈ entities chain → y ∈ entities chain →
       connected correlations x y)
  ∧ (∀ chain edge, chain ∈ chains → edge ∈ correlations →
       sourceEntity edge ∈ entities chain ∨ targetEntity edge ∈ entities chain →
       edge ∈ relationships chain).
Proof.
  cbv zeta. unfold findThreatChains.
  destruct (runComponents_spec correlations)
    as (visited & comps & Hrun & (HV & Hnd & HVK & Hcl & Hall) & Hkeys).
  destruct (buildGraph_spec correlations) as (_ & Hend & Hnbrs).
  unfold findConnectedComponents. rewrite Hrun.
  pose proof (chainSteps_entities correlations comps []) as Hents. simpl in Hents.
  assert (Hsub : map entities (fold_left (chainStep correlations) comps [])
                 `sublist_of` comps).
  { rewrite Hents. apply filter_sublist. }
  assert (Hchain : ∀ chain, chain ∈ fold_left (chainStep correlations) comps [] →
            entities chain ∈ comps
            ∧ relationships chain = chainCorrelations (entities chain) correlations).
  { intros chain Hin.
    apply elem_of_chainSteps in Hin as [H|(c & Hc & _ & _ & ->)]; [inversion H |].
    by split. }
  assert (Hclass : ∀ c x y, c ∈ comps → x ∈ c →
            (y ∈ c ↔ connected correlations x y)).
  { intros c x y Hc Hx. rewrite Forall_forall in Hall.
    destruct (Hall c Hc) as [_ Hreach]. rewrite (Hreach x y Hx).
    unfold connected. split; intros Hrtc.
    - eapply rtc_subrel; [| exact Hrtc]. intros a b Hab. by apply Hnbrs.
    - eapply rtc_subrel; [| exact Hrtc]. intros a b Hab. by apply Hnbrs. }
  split_and!.
  - done.
  - eapply sublist_NoDup; [exact Hnd | by apply concat_sublist].
  - intros chain x y Hin Hx Hy. destruct (Hchain chain Hin) as [Hc _].
    by apply (Hclass (entities chain)).
  - intros chain edge Hin Hedge Hends. destruct (Hchain chain Hin) as [Hc ->].
    assert (Hlink : linked correlations (sourceEntity edge) (targetEntity edge)).
    { exists edge. split; [done | by left]. }
    assert (Hboth : sourceEntity edge ∈ entities chain
                    ∧ targetEntity edge ∈ entities chain).
    { destruct Hends as [Hs|Ht].
      - split; [done |]. apply (Hclass _ (sourceEntity edge)); [done | done |].
        by apply rtc_once.
      - split; [| done]. apply (Hclass _ (targetEntity edge)); [done | done |].
        by apply rtc_once, linked_sym. }
    unfold chainCorrelations. apply list_elem_of_In, filter_In.
    split; [by apply list_elem_of_In |].
    unfold JsSet.includes. destruct Hboth.
    by rewrite !bool_decide_eq_true_2.
Qed.

(** All relationship types, and the number of them that occur in a list. *)
Definition allTypes : list RelationshipType :=
  [communicates_with; accesses; executes; owns; contains; similar_to].

Lemma distinctTypes_length (types : list RelationshipType) :
  length (JsSet.ofList types)
  = length (List.filter (λ t, bool_decide (t ∈ types)) allTypes).
Proof.
  destruct (JsSetFacts.ofList_spec types) as [Hnd Hel].
  apply Permutation_length, NoDup_Permutation; [done | |].
  - apply NoDup_ListNoDup, List.NoDup_filter, NoDup_ListNoDup.
    unfold allTypes. repeat (apply NoDup_cons; split; [set_solver |]).
    apply NoDup_nil_2.
  - intros t. rewrite Hel, (list_elem_of_In (List.filter _ _) t), filter_In,
      bool_decide_eq_true.
    split; [| tauto]. intros Ht. split; [| done].
    unfold allTypes. destruct t; simpl; tauto.
Qed.

(** X16. What each pattern of [identifyThreatPattern] means for the
    relationship types that occur on the edges: [lateral_movement] is
    communication with access; [privilege_escalation] is execution with
    access and no communication; [command_and_control] is communication
    without access with at least two further types; and
    [data_exfiltration] arises for exactly one set of types: access,
    ownership, containment and similarity, with neither communication
    nor execution.  The entity list plays no part. *)
Theorem identifyThreatPattern_meaning entities correlations :
  let has t := t ∈ map relationship correlations in
  let result := identifyThreatPattern entities correlations in
  (result = "lateral_movement" ↔ has communicates_with ∧ has accesses)
  ∧ (result = "privilege_escalation"
     ↔ has executes ∧ has accesses ∧ ¬ has communicates_with)
  ∧ (result = "command_and_control"
     ↔ has communicates_with ∧ ¬ has accesses
       ∧ (2 ≤ length (List.filter (λ t, bool_decide (has t))
                                  [executes; owns; contains; similar_to]))%nat)
  ∧ (result = "data_exfiltration"
     ↔ has accesses ∧ has owns ∧ has contains ∧ has similar_to
       ∧ ¬ has communicates_with ∧ ¬ has executes)
  ∧ result = identifyThreatPattern [] correlations.
Proof.
  cbv zeta. unfold identifyThreatPattern. cbv zeta.
  set (types := map relationship correlations).
  rewrite (distinctTypes_length types).
  destruct (uniqueTypes_spec types) as [Hinc _]. rewrite !Hinc.
  unfold allTypes. simpl List.filter.
  destruct (bool_decide (communicates_with ∈ types)) eqn:E1;
    [apply bool_decide_eq_true in E1 | apply bool_decide_eq_false in E1];
  (destruct (bool_decide (accesses ∈ types)) eqn:E2;
    [apply bool_decide_eq_true in E2 | apply bool_decide_eq_false in E2]);
  (destruct (bool_decide (executes ∈ types)) eqn:E3;
    [apply bool_decide_eq_true in E3 | apply bool_decide_eq_false in E3]);
  (destruct (bool_decide (owns ∈ types)) eqn:E4;
    [apply bool_decide_eq_true in E4 | apply bool_decide_eq_false in E4]);
  (destruct (bool_decide (contains ∈ types)) eqn:E5;
    [apply bool_decide_eq_true in E5 | apply bool_decide_eq_false in E5]);
  (destruct (bool_decide (similar_to ∈ types)) eqn:E6;
    [apply bool_decide_eq_true in E6 | apply bool_decide_eq_false in E6]);
  simpl; split_and!; try done;
    (split; [try discriminate; intros _; split_and!; try done; simpl; lia
            | intros H; try done; destruct_and?; try done; simpl in *; lia]).
Qed.

End ChainShape.

(** ** Detection agent: rule evaluation and rule performance *)

Section AgentRuns.
Import Agent.

Variable behavioralConfig : Behavioral.BehavioralConfig.
Variable graphConfig : Graph.GraphConfig.
Variable runQuery : string -> Q -> option (list Graph.QueryRecord).
Variable generateCompletion : string -> Result string.
Variable parseJSONResponse : string -> Result LLM.Answer.
Variable Enrichment : Type.
Variable enrichEvent : SecurityEvent -> Result Enrichment.
Variable updateWithEvent : SecurityEvent -> Result unit.
Variable buildRuleEvaluationPrompt :
  DetectionRule -> SecurityEvent -> RuleContext Enrichment -> string.

Local Abbreviation pipeline :=
  (processEventPipeline behavioralConfig graphConfig runQuery generateCompletion
     parseJSONResponse Enrichment enrichEvent updateWithEvent
     buildRuleEvaluationPrompt).
Local Abbreviation queueRun :=
  (processQueue behavioralConfig graphConfig runQuery generateCompletion
     parseJSONResponse Enrichment enrichEvent updateWithEvent
     buildRuleEvaluationPrompt).
Local Abbreviation agentEvaluateRule :=
  (evaluateRule generateCompletion parseJSONResponse Enrichment
     buildRuleEvaluationPrompt).
Local Abbreviation rulesStep :=
  (evaluateRulesStep generateCompletion parseJSONResponse Enrichment
     buildRuleEvaluationPrompt).
Local Abbreviation agentEvaluateRules :=
  (evaluateRules generateCompletion parseJSONResponse Enrichment
     buildRuleEvaluationPrompt).

Lemma clamp_in_unit q : 0 <= Qmax 0 (Qmin 1 q) <= 1.
Proof.
  split; [apply Q.le_max_l |].
  apply Q.max_lub; [discriminate | apply Q.le_min_l].
Qed.



Lemma evaluateRule_confidence llmReady rule event context :
  0 <= LLM.confidence (agentEvaluateRule llmReady rule event context) <= 1.
Proof.
  unfold evaluateRule, LLM.evaluateRule. destruct llmReady; simpl.
  - destruct (LLM.completeAndParse _ _ _); simpl;
      [apply clamp_in_unit | split; discriminate].
  - split; discriminate.
Qed.

(** The share that a matched rule adds to the false-positive risk. *)
Definition riskShare (llmReady : bool) (event : SecurityEvent)
    (context : RuleContext Enrichment) (rule : DetectionRule) : Q :=
  (1 - LLM.confidence (agentEvaluateRule llmReady rule event context)) * (3 # 10).

Definition weakMatch (llmReady : bool) (event : SecurityEvent)
    (context : RuleContext Enrichment) (rule : DetectionRule) : bool :=
  LLM.matches (agentEvaluateRule llmReady rule event context)
  && JsNum.ltb (LLM.confidence (agentEvaluateRule llmReady rule event context))
               (7 # 10).

Lemma evaluateRules_loop llmReady event context rules matched needsRec fpRisk :
  let acc' := fold_left (rulesStep llmReady event context) rules
                        (matched, needsRec, fpRisk) in
  acc'.1.1
  = matched
    ++ List.filter (λ rule, LLM.matches (agentEvaluateRule llmReady rule event context))
                   rules
  ∧ acc'.2
    == fpRisk
       + JsNum.sumBy (riskShare llmReady event context)
           (List.filter (weakMatch llmReady event context) rules).
Proof.
  revert matched needsRec fpRisk.
  induction rules as [|rule rules IH]; intros matched needsRec fpRisk; simpl.
  - rewrite app_nil_r. split; [done |]. unfold JsNum.sumBy. simpl. ring.
  - destruct (rulesStep llmReady event context (matched, needsRec, fpRisk) rule)
      as [[matched1 needsRec1] fpRisk1] eqn:Hstep.
    destruct (IH matched1 needsRec1 fpRisk1) as [H1 H2].
    unfold evaluateRulesStep in Hstep.
    assert (Hweak : weakMatch llmReady event context rule
              = LLM.matches (agentEvaluateRule llmReady rule event context)
                && JsNum.ltb
                     (LLM.confidence (agentEvaluateRule llmReady rule event context))
                     (7 # 10)) by reflexivity.
    rewrite Hweak. clear Hweak.
    destruct (LLM.matches _) eqn:Hm; cbn [andb].
    + destruct (JsNum.ltb _ _) eqn:Hlt; cbn [andb]; injection Hstep as <- <- <-.
      * split; [by rewrite H1, <- app_assoc |].
        rewrite H2, sumBy_cons. unfold riskShare. ring.
      * split; [by rewrite H1, <- app_assoc | done].
    + injection Hstep as <- <- <-. done.
Qed.

(** X18. [evaluateRules] returns as matched exactly the rules that
    [evaluateRule] reports as matching, in the order of the rule set;
    its false-positive risk is the sum of 0.3·(1 − confidence) over the
    matched rules whose confidence is below 0.7, capped at 1; and that
    risk lies in [0,1]. *)
Theorem evaluateRules_result llmReady rules event context :
  let result := agentEvaluateRules llmReady rules event context in
  matchedRules result
  = List.filter (λ rule, LLM.matches (agentEvaluateRule llmReady rule event context))
                rules
  ∧ falsePositiveRisk result
    == Qmin 1 (JsNum.sumBy (riskShare llmReady event context)
                 (List.filter (weakMatch llmReady event context) rules))
  ∧ 0 <= falsePositiveRisk result <= 1.
Proof.
  cbv zeta. unfold evaluateRules.
  destruct (evaluateRules_loop llmReady event context rules [] false 0) as [H1 H2].
  destruct (fold_left _ _ _) as [[matched needsRec] fpRisk]. simpl in *.
  assert (Hsum : 0 <= JsNum.sumBy (riskShare llmReady event context)
                        (List.filter (weakMatch llmReady event context) rules)).
  { generalize (List.filter (weakMatch llmReady event context) rules).
    intros l. induction l as [|r l IH].
    - unfold JsNum.sumBy. simpl. apply Qle_refl.
    - rewrite sumBy_cons. unfold riskShare at 1.
      destruct (evaluateRule_confidence llmReady r event context) as [_ Hle].
      set (c := LLM.confidence _) in *. lra. }
  assert (Heq : fpRisk == JsNum.sumBy (riskShare llmReady event context)
                            (List.filter (weakMatch llmReady event context) rules)).
  { rewrite H2. ring. }
  split_and!.
  - done.
  - by rewrite Heq.
  - rewrite Heq. apply Q.min_glb; [discriminate | done].
  - apply Q.le_min_l.
Qed.

(** *** Rule performance *)

(** X19. [updateRulePerformance] changes nothing but the performance of
    the rule it is called for: the rule set keeps its keys and their
    order, every other rule is untouched, an unknown id leaves the rule
    set as it was, and the rule itself keeps its id, name, metadata,
    total match count, recall and F1 score.  Its new accuracy lies in
    [0,1]. *)
Theorem updateRulePerformance_frame ruleId isFalsePositive rules :
  let rules' := updateRulePerformance ruleId isFalsePositive rules in
  JsMap.keys rules' = JsMap.keys rules
  ∧ (∀ k, k ≠ ruleId → JsMap.get rules' k = JsMap.get rules k)
  ∧ (JsMap.get rules ruleId = None → rules' = rules)
  ∧ (∀ rule, JsMap.get rules ruleId = Some rule →
       ∃ rule', JsMap.get rules' ruleId = Some rule'
         ∧ rule_id rule' = rule_id rule
         ∧ rule_name rule' = rule_name rule
         ∧ metadata rule' = metadata rule
         ∧ totalMatches (performance rule') = totalMatches (performance rule)
         ∧ recall (performance rule') = recall (performance rule)
         ∧ f1Score (performance rule') = f1Score (performance rule)
         ∧ 0 <= accuracy (performance rule') <= 1).
Proof.
  cbv zeta. unfold updateRulePerformance.
  destruct (JsMap.get rules ruleId) as [rule|] eqn:Hget.
  - split_and!.
    + apply JsMapFacts.keys_set_Some. by rewrite Hget.
    + intros k Hk. by apply JsMapFacts.get_set_ne.
    + discriminate.
    + intros r [= <-]. eexists. split; [apply JsMapFacts.get_set_eq |].
      simpl. split_and!; try reflexivity.
      * set (tp := if isFalsePositive then _ else _).
        set (fp := if isFalsePositive then _ else _).
        assert (Hpos : 0 < JsNum.ofNat tp + JsNum.ofNat fp).
        { rewrite <- (ofNat_add tp fp). apply ofNat_pos.
          subst tp fp. destruct isFalsePositive; lia. }
        apply Qle_shift_div_l; [done |].
        pose proof (JsNumFacts.ofNat_nonneg tp). lra.
      * set (tp := if isFalsePositive then _ else _).
        set (fp := if isFalsePositive then _ else _).
        assert (Hpos : 0 < JsNum.ofNat tp + JsNum.ofNat fp).
        { rewrite <- (ofNat_add tp fp). apply ofNat_pos.
          subst tp fp. destruct isFalsePositive; lia. }
        apply Qle_shift_div_r; [done |].
        pose proof (JsNumFacts.ofNat_nonneg fp). lra.
  - split_and!; [done | done | done | discriminate].
Qed.


Lemma ofNat_inj_0 n : JsNum.ofNat n == 0 → n = 0%nat.
Proof.
  unfold JsNum.ofNat. change 0 with (inject_Z 0). rewrite inject_Z_injective. lia.
Qed.

Lemma ratio_facts (tp fp : nat) :
  (0 < tp + fp)%nat →
  let x := JsNum.ofNat tp / (JsNum.ofNat tp + JsNum.ofNat fp) in
  0 <= x <= 1 ∧ x * (JsNum.ofNat tp + JsNum.ofNat fp) == JsNum.ofNat tp.
Proof.
  intros Hpos. cbv zeta.
  assert (Hn : 0 < JsNum.ofNat tp + JsNum.ofNat fp).
  { rewrite <- ofNat_add. by apply ofNat_pos. }
  pose proof (JsNumFacts.ofNat_nonneg tp). pose proof (JsNumFacts.ofNat_nonneg fp).
  split_and!.
  - apply Qle_shift_div_l; [done | lra].
  - apply Qle_shift_div_r; [done | lra].
  - rewrite Qmult_comm. apply Qmult_div_r. intros Hz. rewrite Hz in Hn. by apply Qlt_irrefl in Hn.
Qed.

(** X20. Between two successive feedbacks on a rule, a false positive
    never raises its accuracy and a true positive never lowers it; and
    the accuracy is 1 exactly when no false positive has been counted. *)
Theorem updateRulePerformance_trend ruleId first second rules rule :
  JsMap.get rules ruleId = Some rule →
  ∃ rule1 rule2,
    JsMap.get (updateRulePerformance ruleId first rules) ruleId = Some rule1
    ∧ JsMap.get (updateRulePerformance ruleId second
                   (updateRulePerformance ruleId first rules)) ruleId
      = Some rule2
    ∧ (second = true →
       accuracy (performance rule2) <= accuracy (performance rule1))
    ∧ (second = false →
       accuracy (performance rule1) <= accuracy (performance rule2))
    ∧ (accuracy (performance rule2) == 1
       ↔ falsePositives (performance rule2) = 0%nat).
Proof.
  intros Hget. unfold updateRulePerformance at 1 3. rewrite Hget.
  eexists. unfold updateRulePerformance. rewrite JsMapFacts.get_set_eq.
  eexists. split; [reflexivity |]. split; [apply JsMapFacts.get_set_eq |].
  cbn [performance accuracy falsePositives truePositives updatedPerformance].
  set (tp1 := if first then truePositives (performance rule)
              else S (truePositives (performance rule))).
  set (fp1 := if first then S (falsePositives (performance rule))
              else falsePositives (performance rule)).
  assert (Hpos1 : (0 < tp1 + fp1)%nat) by (subst tp1 fp1; destruct first; lia).
  destruct (ratio_facts tp1 fp1 Hpos1) as [[Hx0 Hx1] Hx].
  set (x := JsNum.ofNat tp1 / _) in *.
  pose proof (JsNumFacts.ofNat_nonneg tp1) as Htp.
  pose proof (JsNumFacts.ofNat_nonneg fp1) as Hfp.
  assert (Hn : 0 < JsNum.ofNat tp1 + JsNum.ofNat fp1).
  { rewrite <- ofNat_add. by apply ofNat_pos. }
  split_and!.
  - intros ->. rewrite ofNat_S. apply Qle_shift_div_r; [lra |].
    assert (x * (JsNum.ofNat tp1 + (JsNum.ofNat fp1 + 1))
            == JsNum.ofNat tp1 + x) as ->
      by (transitivity (x * (JsNum.ofNat tp1 + JsNum.ofNat fp1) + x);
          [ring | by rewrite Hx]).
    lra.
  - intros ->. rewrite ofNat_S. apply Qle_shift_div_l; [lra |].
    assert (x * (JsNum.ofNat tp1 + 1 + JsNum.ofNat fp1)
            == JsNum.ofNat tp1 + x) as ->
      by (transitivity (x * (JsNum.ofNat tp1 + JsNum.ofNat fp1) + x);
          [ring | by rewrite Hx]).
    lra.
  - set (tp2 := if second then tp1 else S tp1).
    set (fp2 := if second then S fp1 else fp1).
    assert (Hpos2 : (0 < tp2 + fp2)%nat) by (subst tp2 fp2; destruct second; lia).
    destruct (ratio_facts tp2 fp2 Hpos2) as [_ Hy].
    set (y := JsNum.ofNat tp2 / _) in *.
    split.
    + intros Hone. rewrite Hone in Hy. apply ofNat_inj_0. lra.
    + intros Hzero.
      assert (Htp2 : 0 < JsNum.ofNat tp2) by (apply ofNat_pos; lia).
      subst y. rewrite Hzero. change (JsNum.ofNat 0) with 0.
      rewrite Qplus_0_r. apply Qmult_inv_r. intros Hz. rewrite Hz in Htp2.
      by apply Qlt_irrefl in Htp2.
Qed.

(** *** The pipeline as a whole *)

Definition learningCalls (eventId : string) : list Call :=
  [CallUpdateBaseline eventId; CallUpdateGraph eventId; CallUpdateWithEvent eventId].

(** The calls of a run that reaches its end. *)
Definition completedCalls (eventId : string) (recommend : bool) : list Call :=
  [CallAnalyzeEvent eventId; CallCorrelateEvent eventId;
   CallEnrichEvent eventId; CallEvaluateRules eventId]
  ++ (if recommend then [CallGenerateRecommendations eventId] else [])
  ++ learningCalls eventId.

(** The calls of a run that is cut short in one of its first three
    stages. *)
Definition abortedCalls (eventId : string) (stage : nat) : list Call :=
  take (S stage)
       [CallAnalyzeEvent eventId; CallCorrelateEvent eventId; CallEnrichEvent eventId].

Definition withBehavioral (st : AgentState) (svc : Behavioral.Service)
    (calls : list Call) : AgentState :=
  {| behavioral := svc; graph := graph st; llmInitialized := llmInitialized st;
     activeRules := activeRules st; callLog := callLog st ++ calls |}.

(** What a run of the pipeline does, case by case. *)
Lemma pipeline_run event st :
  let analysis := Behavioral.analyzeEvent behavioralConfig event (behavioral st) in
  let correlation := Graph.correlateEvent graphConfig runQuery (graph st) event in
  match analysis.1, correlation, enrichEvent event with
  | Ok behavioralResult, Ok correlationResult, Ok enrichmentResult =>
      let ruleResults :=
        agentEvaluateRules (llmInitialized st) (JsMap.values (activeRules st)) event
          {| ctx_behavioral := behavioralResult;
             ctx_correlation := correlationResult;
             ctx_enrichment := enrichmentResult |} in
      pipeline event st
      = (Ok (Some {| out_behavioral := behavioralResult;
                     out_correlation := correlationResult;
                     out_rules := ruleResults |}),
         withBehavioral st
           (Behavioral.updateBaseline behavioralConfig event analysis.2)
           (completedCalls (ev_id event) (needsRecommendation ruleResults)))
  | Throw _, _, _ =>
      pipeline event st
      = (Ok None, withBehavioral st analysis.2 (abortedCalls (ev_id event) 0))
  | Ok _, Throw _, _ =>
      pipeline event st
      = (Ok None, withBehavioral st analysis.2 (abortedCalls (ev_id event) 1))
  | Ok _, Ok _, Throw _ =>
      pipeline event st
      = (Ok None, withBehavioral st analysis.2 (abortedCalls (ev_id event) 2))
  end.
Proof.
  cbv zeta.
  unfold processEventPipeline, updateLearningModels, analyzeEventM,
    correlateEventM, enrichEventM, evaluateRulesM, generateRecommendationsM,
    updateBaselineM, updateGraphM, updateWithEventM.
  unfold tryCatch, mbind, M_bind, bind, mret, M_ret, ret, logCall, liftResult,
    withBehavioral, completedCalls, abortedCalls, learningCalls.
  simpl.
  destruct (Behavioral.analyzeEvent behavioralConfig event (behavioral st))
    as [[behavioralResult|msg] analysed]; simpl; [| done].
  destruct (Graph.correlateEvent graphConfig runQuery (graph st) event)
    as [correlationResult|msg]; simpl; [| by rewrite <- !app_assoc].
  destruct (enrichEvent event) as [enrichmentResult|msg]; simpl;
    [| by rewrite <- !app_assoc].
  destruct (needsRecommendation _); simpl;
    destruct (updateWithEvent event); simpl;
    by rewrite <- !app_assoc.
Qed.




Lemma updateBaselineStep_keeps config event store occ k :
  is_Some (store !! k) →
  is_Some (Behavioral.updateBaselineStep config event store occ !! k).
Proof.
  intros Hk. unfold Behavioral.updateBaselineStep, Behavioral.createInitialBaseline,
    Behavioral.updateEntityBaseline.
  destruct (store !! ent_id occ.2) as [b|] eqn:E.
  - rewrite E. rewrite !lookup_insert_is_Some'. auto.
  - rewrite lookup_insert_eq. rewrite !lookup_insert_is_Some'. auto.
Qed.

Lemma updateBaseline_keeps config event svc k :
  is_Some (Behavioral.baselines svc !! k) →
  is_Some (Behavioral.baselines (Behavioral.updateBaseline config event svc) !! k).
Proof.
  unfold Behavioral.updateBaseline. simpl. generalize (Behavioral.baselines svc).
  induction (entityOccurrences event) as [|occ occs IH]; intros store Hk; simpl;
    [done |].
  by apply IH, updateBaselineStep_keeps.
Qed.

Lemma analyzeEvent_keeps event svc k b :
  Behavioral.baselines svc !! k = Some b →
  Behavioral.baselines (Behavioral.analyzeEvent behavioralConfig event svc).2 !! k
  = Some b.
Proof.
  unfold Behavioral.analyzeEvent. destruct (negb _); [done |].
  destruct (analyzeEvent_loop behavioralConfig event (entityOccurrences event)
              [] 0 0 0%nat (Behavioral.baselines svc))
    as (risk' & conf' & count' & ->).
  simpl. apply entityAnalyses_keeps.
Qed.

(** X22. Whatever happens in a run of the pipeline, it returns without
    throwing; the graph engine, the flag of the LLM service and the rule
    set are as before; the call log has only grown; and no baseline has
    been removed.  A run that is cut short has not updated any baseline:
    every baseline it found is unchanged, and none of the learning
    updates was called. *)
Theorem processEventPipeline_frame event st :
  ∃ outcome st' calls,
    pipeline event st = (Ok outcome, st')
    ∧ graph st' = graph st
    ∧ llmInitialized st' = llmInitialized st
    ∧ activeRules st' = activeRules st
    ∧ callLog st' = callLog st ++ calls
    ∧ (∀ k, is_Some (Behavioral.baselines (behavioral st) !! k) →
            is_Some (Behavioral.baselines (behavioral st') !! k))
    ∧ (outcome = None →
       (∀ k b, Behavioral.baselines (behavioral st) !! k = Some b →
               Behavioral.baselines (behavioral st') !! k = Some b)
       ∧ ∀ call, call ∈ learningCalls (ev_id event) → call ∉ calls).
Proof.
  pose proof (pipeline_run event st) as Hrun. cbv zeta in Hrun.
  pose proof (analyzeEvent_keeps event (behavioral st)) as Hkeep.
  assert (Hshort : ∀ stage call,
            call ∈ learningCalls (ev_id event) →
            call ∉ abortedCalls (ev_id event) stage).
  { intros stage call Hcall Hin. unfold abortedCalls in Hin.
    apply (subseteq_take (S stage)) in Hin. unfold learningCalls in Hcall.
    set_solver. }
  destruct ((Behavioral.analyzeEvent behavioralConfig event (behavioral st)).1)
    as [behavioralResult|msg1];
    [destruct (Graph.correlateEvent graphConfig runQuery (graph st) event)
       as [correlationResult|msg2];
     [destruct (enrichEvent event) as [enrichmentResult|msg3] |] |];
    rewrite Hrun; eexists _, _, _;
    (split; [reflexivity |]); simpl;
    (split_and!; [done | done | done | done | | ]).
  - intros k [b Hb]. apply updateBaseline_keeps. rewrite (Hkeep k b Hb). eauto.
  - discriminate.
  - intros k [b Hb]. rewrite (Hkeep k b Hb). eauto.
  - intros _. split; [exact Hkeep | apply Hshort].
  - intros k [b Hb]. rewrite (Hkeep k b Hb). eauto.
  - intros _. split; [exact Hkeep | apply Hshort].
  - intros k [b Hb]. rewrite (Hkeep k b Hb). eauto.
  - intros _. split; [exact Hkeep | apply Hshort].
Qed.

(** The events whose analysis a list of calls records, in order. *)
Definition analysedEvents (calls : list Call) : list string :=
  omap (λ call, match call with CallAnalyzeEvent eventId => Some eventId | _ => None end)
       calls.

Lemma analysedEvents_run event st :
  ∃ st' outcome calls,
    pipeline event st = (Ok outcome, st')
    ∧ graph st' = graph st
    ∧ llmInitialized st' = llmInitialized st
    ∧ activeRules st' = activeRules st
    ∧ callLog st' = callLog st ++ calls
    ∧ analysedEvents calls = [ev_id event].
Proof.
  pose proof (pipeline_run event st) as Hrun. cbv zeta in Hrun.
  destruct ((Behavioral.analyzeEvent behavioralConfig event (behavioral st)).1)
    as [behavioralResult|msg1];
    [destruct (Graph.correlateEvent graphConfig runQuery (graph st) event)
       as [correlationResult|msg2];
     [destruct (enrichEvent event) as [enrichmentResult|msg3] |] |];
    rewrite Hrun; eexists _, _, _;
    (split; [reflexivity |]); simpl;
    (split_and!; [done | done | done | done | ]); try done.
  unfold completedCalls. by destruct (needsRecommendation _).
Qed.

(** X23. [processQueue] works through the whole queue and returns; it
    analyses each queued event once, in the order of the queue, also
    when runs in between were cut short; it leaves the graph engine, the
    LLM flag and the rule set as they were; and processing a queue is
    processing its front part and then the rest. *)
Theorem processQueue_in_order queue st :
  ∃ st' calls,
    queueRun queue st = (Ok tt, st')
    ∧ graph st' = graph st
    ∧ llmInitialized st' = llmInitialized st
    ∧ activeRules st' = activeRules st
    ∧ callLog st' = callLog st ++ calls
    ∧ analysedEvents calls = map ev_id queue
    ∧ ∀ front rest, queue = front ++ rest →
        queueRun queue st = queueRun rest (queueRun front st).2.
Proof.
  assert (Hsplit : ∀ front rest s,
            queueRun (front ++ rest) s = queueRun rest (queueRun front s).2).
  { induction front as [|event front IH]; intros rest s; simpl; [done |].
    unfold mbind, M_bind, bind.
    destruct (analysedEvents_run event s) as (s1 & outcome & calls & Hrun & _).
    rewrite Hrun. apply IH. }
  assert (Hmain : ∀ queue st, ∃ st' calls,
            queueRun queue st = (Ok tt, st')
            ∧ graph st' = graph st
            ∧ llmInitialized st' = llmInitialized st
            ∧ activeRules st' = activeRules st
            ∧ callLog st' = callLog st ++ calls
            ∧ analysedEvents calls = map ev_id queue).
  { clear. induction queue as [|event queue IH]; intros st; simpl.
    - exists st, []. unfold ret. rewrite app_nil_r. by split_and!.
    - unfold mbind, M_bind, bind.
      destruct (analysedEvents_run event st)
        as (st1 & outcome & calls1 & Hrun & Hg & Hl & Hr & Hlog & Han).
      destruct (IH st1) as (st' & calls & Hq & Hg' & Hl' & Hr' & Hlog' & Han').
      exists st', (calls1 ++ calls). rewrite Hrun, Hq.
      split_and!; try congruence.
      + by rewrite Hlog', Hlog, app_assoc.
      + unfold analysedEvents in *. by rewrite omap_app, Han, Han'. }
  destruct (Hmain queue st) as (st' & calls & H1 & H2 & H3 & H4 & H5 & H6).
  exists st', calls. split_and!; try done.
  intros front rest ->. apply Hsplit.
Qed.

End AgentRuns.

(** ** Similar rules and feedback *)

Section Similarity.
Import Agent.


Lemma append_nil_l s : ("" ++ s)%string = s.
Proof. reflexivity. Qed.





(** The technique that [hasSimilarRule] compares with: the first one of
    the rule, lower-cased, or the empty string. *)
Definition ruleTechnique (rule : DetectionRule) : string :=
  JsString.toLowerCase (default "" (head (mitreTechniques (metadata rule)))).


End Similarity.

Section FeedbackCounts.
Import Agent AgentFeedback.

(** The feedback messages that name a rule, split by their verdict. *)
Definition namesRule (ruleId : string) (verdict : bool) (feedback : Feedback) : bool :=
  bool_decide (fb_ruleId feedback = Some ruleId)
  && Bool.eqb (fb_isFalsePositive feedback) verdict.

Lemma processFeedback_rule feedback st n ruleId rule :
  ruleId ≠ "" →
  JsMap.get (activeRules st) ruleId = Some rule →
  ∃ rule',
    JsMap.get (activeRules (processFeedback feedback st n).1) ruleId = Some rule'
    ∧ truePositives (performance rule')
      = (truePositives (performance rule)
         + (if namesRule ruleId false feedback then 1 else 0))%nat
    ∧ falsePositives (performance rule')
      = (falsePositives (performance rule)
         + (if namesRule ruleId true feedback then 1 else 0))%nat
    ∧ totalMatches (performance rule') = totalMatches (performance rule)
    ∧ falseNegatives (performance rule') = falseNegatives (performance rule).
Proof.
  intros Hne Hget. unfold processFeedback, namesRule. simpl.
  destruct (fb_ruleId feedback) as [r|] eqn:Hr.
  - destruct (String.eqb_spec r "") as [-> |Hr0].
    + rewrite bool_decide_eq_false_2 by congruence. simpl.
      exists rule. split_and!; [done | lia | lia | done | done].
    + destruct (decide (r = ruleId)) as [-> |Hother].
      * rewrite bool_decide_eq_true_2 by done. simpl.
        unfold updateRulePerformance. rewrite Hget.
        eexists. split; [apply JsMapFacts.get_set_eq |]. simpl.
        destruct (fb_isFalsePositive feedback); simpl; split_and!; try done; lia.
      * rewrite bool_decide_eq_false_2 by congruence. simpl.
        exists rule. split_and!; [| lia | lia | done | done].
        unfold updateRulePerformance.
        destruct (JsMap.get (activeRules st) r); [| done].
        by rewrite JsMapFacts.get_set_ne.
  - rewrite bool_decide_eq_false_2 by congruence. simpl.
    exists rule. split_and!; [done | lia | lia | done | done].
Qed.

(** X25. Over any sequence of feedback messages, the agent's counter of
    reduced false positives grows by the number of false-positive
    verdicts; for a rule of the rule set, the true-positive and
    false-positive counters grow by the number of messages that name it
    with that verdict; its total match count and its false negatives are
    never touched; and neither the graph engine nor the call log nor the
    set of rule ids changes. *)
Theorem processFeedbacks_counts feedbacks st n ruleId rule :
  ruleId ≠ "" →
  JsMap.get (activeRules st) ruleId = Some rule →
  let st' := (processFeedbacks feedbacks st n).1 in
  (processFeedbacks feedbacks st n).2
  = (n + length (List.filter fb_isFalsePositive feedbacks))%nat
  ∧ graph st' = graph st
  ∧ callLog st' = callLog st
  ∧ JsMap.keys (activeRules st') = JsMap.keys (activeRules st)
  ∧ ∃ rule',
      JsMap.get (activeRules st') ruleId = Some rule'
      ∧ truePositives (performance rule')
        = (truePositives (performance rule)
           + length (List.filter (namesRule ruleId false) feedbacks))%nat
      ∧ falsePositives (performance rule')
        = (falsePositives (performance rule)
           + length (List.filter (namesRule ruleId true) feedbacks))%nat
      ∧ totalMatches (performance rule') = totalMatches (performance rule)
      ∧ falseNegatives (performance rule') = falseNegatives (performance rule).
Proof.
  intros Hne. cbv zeta. unfold processFeedbacks.
  revert st n rule. induction feedbacks as [|feedback feedbacks IH];
    intros st n rule Hget; simpl.
  - split_and!; [lia | done | done | done |].
    exists rule. split_and!; [done | lia | lia | done | done].
  - destruct (processFeedback_rule feedback st n ruleId rule Hne Hget)
      as (rule1 & Hget1 & Htp1 & Hfp1 & Htm1 & Hfn1).
    assert (Hkeys : JsMap.keys (activeRules (processFeedback feedback st n).1)
                    = JsMap.keys (activeRules st)).
    { unfold processFeedback. simpl.
      destruct (fb_ruleId feedback) as [r|]; [| done].
      destruct (String.eqb r ""); [done |].
      unfold updateRulePerformance.
      destruct (JsMap.get (activeRules st) r) eqn:E; [| done].
      apply JsMapFacts.keys_set_Some. by rewrite E. }
    destruct (processFeedback feedback st n) as [st1 n1] eqn:Hstep.
    simpl in Hget1, Hkeys.
    destruct (IH st1 n1 rule1 Hget1)
      as (Hn & Hg & Hl & Hk & rule' & Hget' & Htp & Hfp & Htm & Hfn).
    assert (Hst1 : graph st1 = graph st ∧ callLog st1 = callLog st
                   ∧ n1 = if fb_isFalsePositive feedback then S n else n).
    { unfold processFeedback in Hstep. by injection Hstep as <- <-. }
    destruct Hst1 as (Hg1 & Hl1 & Hn1).
    split_and!.
    + rewrite Hn, Hn1. destruct (fb_isFalsePositive feedback); simpl; lia.
    + congruence.
    + congruence.
    + congruence.
    + exists rule'. split; [done |]. rewrite Htp, Hfp, Htm, Hfn, Htp1, Hfp1.
      split_and!; [| | done | done].
      * destruct (namesRule ruleId false feedback); simpl; lia.
      * destruct (namesRule ruleId true feedback); simpl; lia.
Qed.

End FeedbackCounts.

(** * Worked instances *)

Module Demo.

Definition noon : Timestamp := {| getTime := 1700000000000; getHours := 12; getDay := 2 |}.

Definition alice : EntityInfo :=
  {| ent_id := "alice"; ent_name := "alice"; ent_type := "user" |}.

Definition entityB : EntityInfo :=
  {| ent_id := "B"; ent_name := "B"; ent_type := "host" |}.

Definition loginEvent : SecurityEvent :=
  {| ev_id := "evt-1"; ev_eventType := "Process_Start"; ev_timestamp := noon;
     ev_entities := {| users := [alice]; hosts := []; networks := [];
                       processes := []; files := [] |};
     ev_riskScore := 5 # 10 |}.

Definition hostEvent : SecurityEvent :=
  {| ev_id := "evt-2"; ev_eventType := "network_flow"; ev_timestamp := noon;
     ev_entities := {| users := []; hosts := [entityB]; networks := [];
                       processes := []; files := [] |};
     ev_riskScore := 2 # 10 |}.

Definition behavioralConfig : Behavioral.BehavioralConfig :=
  {| Behavioral.anomalyThreshold := 7 # 10; Behavioral.learningRate := 1 # 10 |}.

Definition emptyService : Behavioral.Service :=
  {| Behavioral.baselines := ∅; Behavioral.isInitialized := true |}.

Definition graphConfig : Graph.GraphConfig :=
  {| Graph.correlationWindow := 6; Graph.minCorrelationStrength := 5 # 10 |}.

Definition graphService : Graph.Service :=
  {| Graph.hasDriver := true; Graph.isInitialized := true |}.

(** A graph database that holds the edges B–A ([executes]) and B–C
    ([accesses]). *)
Definition runQuery (entityId : string) (cutoffTime : Q)
  : option (list Graph.QueryRecord) :=
  if String.eqb entityId "B" then
    Some [ {| Graph.qr_targetId := "A"; Graph.qr_relationship := executes;
              Graph.qr_strength := 9 # 10; Graph.qr_confidence := 9 # 10;
              Graph.qr_evidence := []; Graph.qr_lastSeen := 1699999000000 |};
           {| Graph.qr_targetId := "C"; Graph.qr_relationship := accesses;
              Graph.qr_strength := 85 # 100; Graph.qr_confidence := 8 # 10;
              Graph.qr_evidence := []; Graph.qr_lastSeen := 1699999000000 |} ]
  else Some [].

(** A model whose every call times out. *)
Definition timingOut (prompt : string) : Result string := Throw "Request timed out".

Definition neverParsed (response : string) : Result LLM.Answer :=
  Throw "Invalid JSON response from LLM".

Definition promptOf (rule : DetectionRule) (event : SecurityEvent)
    (context : Agent.RuleContext unit) : string :=
  rule_name rule.

Definition freshPerformance : RulePerformance :=
  {| totalMatches := 0; truePositives := 0; falsePositives := 0;
     falseNegatives := 4; accuracy := 0; precision := 0; recall := 0;
     f1Score := 0 |}.

Definition ruleT1021 : DetectionRule :=
  {| rule_id := "rule_1"; rule_name := "Lateral movement over SMB";
     metadata := {| mitreTechniques := ["T1021"] |};
     performance := freshPerformance |}.

Definition ruleContext : Agent.RuleContext unit :=
  {| Agent.ctx_behavioral :=
       {| Behavioral.anomalies := []; Behavioral.riskScore := 0;
          Behavioral.br_confidence := 0 |};
     Agent.ctx_correlation :=
       {| Graph.correlations := []; Graph.networkStrength := 0;
          Graph.threatChains := []; Graph.cr_riskScore := 0 |};
     Agent.ctx_enrichment := tt |}.

Definition edge (source target : string) (r : RelationshipType) : EntityCorrelation :=
  {| sourceEntity := source; targetEntity := target; relationship := r;
     strength := 6 # 10; corr_confidence := 7 # 10; evidence := [];
     lastSeen := 1699999000000 |}.

Definition agentState : Agent.AgentState :=
  {| Agent.behavioral := emptyService; Agent.graph := graphService;
     Agent.llmInitialized := true;
     Agent.activeRules := [("rule_1", ruleT1021)];
     Agent.callLog := [] |}.

(** The pipeline with a model that times out and a knowledge base that
    answers. *)
Definition runPipeline (event : SecurityEvent) (st : Agent.AgentState)
  : Result (option Agent.PipelineOutcome) * Agent.AgentState :=
  Agent.processEventPipeline behavioralConfig graphConfig runQuery timingOut
    neverParsed unit (fun _ => Ok tt) (fun _ => Ok tt) promptOf event st.

End Demo.

Section Examples.
Import Demo.

Example components_of_two_islands :
  Graph.findConnectedComponents
    [ edge "A" "B" executes; edge "D" "E" owns; edge "B" "C" accesses;
      edge "C" "A" owns; edge "E" "E" contains; edge "A" "B" executes ]
  = [ ["A"; "B"; "C"]; ["D"; "E"] ].
Proof. vm_compute. reflexivity. Qed.

Example pattern_rows :
  Graph.identifyThreatPattern []
    [ edge "A" "B" communicates_with; edge "B" "C" accesses; edge "C" "D" executes ]
  = "lateral_movement"
  ∧ Graph.identifyThreatPattern []
      [ edge "A" "B" communicates_with; edge "B" "C" owns; edge "C" "D" contains ]
    = "command_and_control"
  ∧ Graph.identifyThreatPattern []
      [ edge "A" "B" accesses; edge "B" "C" owns; edge "C" "D" contains;
        edge "D" "E" similar_to ]
    = "data_exfiltration"
  ∧ Graph.identifyThreatPattern []
      [ edge "A" "B" accesses; edge "B" "C" owns; edge "C" "D" contains ]
    = "suspicious_activity".
Proof. vm_compute. split_and!; reflexivity. Qed.

Example anomalous_login_count :
  let pattern :=
    {| pat_type := "login_pattern"; frequency := 2;
       timing := Behavioral.emptyTiming; context := []; variance := 1 |} in
  let r := Behavioral.analyzePattern behavioralConfig pattern 5 in
  Behavioral.isAnomaly r = true
  ∧ Behavioral.pa_severity r == 1
  ∧ Behavioral.pa_confidence r == 2 # 100.
Proof. vm_compute. split_and!; reflexivity. Qed.

Example first_event_of_alice :
  Agent.callLog (runPipeline loginEvent agentState).2
  = [ Agent.CallAnalyzeEvent "evt-1"; Agent.CallCorrelateEvent "evt-1";
      Agent.CallEnrichEvent "evt-1"; Agent.CallEvaluateRules "evt-1";
      Agent.CallUpdateBaseline "evt-1"; Agent.CallUpdateGraph "evt-1";
      Agent.CallUpdateWithEvent "evt-1" ]
  ∧ (confidence <$>
       Behavioral.baselines (Agent.behavioral (runPipeline loginEvent agentState).2)
       !! "alice")
    = Some (Qmin 1 ((1 # 10) + (1 # 100))).
Proof. vm_compute. split; reflexivity. Qed.

Example similarity_is_substring_overlap :
  Agent.hasSimilarRule ruleT1021 loginEvent = false
  ∧ Agent.hasSimilarRule ruleT1021
      {| ev_id := "evt-3"; ev_eventType := "Alert T1021 SMB"; ev_timestamp := noon;
         ev_entities := ev_entities loginEvent; ev_riskScore := 0 |} = true
  ∧ Agent.hasSimilarRule
      {| rule_id := "rule_2"; rule_name := "untagged";
         metadata := {| mitreTechniques := [] |};
         performance := freshPerformance |} loginEvent = true.
Proof. vm_compute. split_and!; reflexivity. Qed.

End Examples.

Section Witnesses.
Import Demo.



Lemma evaluateRule_degraded_witness :
  oracleFails timingOut neverParsed true (promptOf ruleT1021 loginEvent ruleContext)
  ∧ LLM.matches
      (Agent.evaluateRule timingOut neverParsed unit promptOf true
         ruleT1021 loginEvent ruleContext) = false.
Proof.
  assert (H : oracleFails timingOut neverParsed true
                (promptOf ruleT1021 loginEvent ruleContext)).
  { right. exists "Request timed out". reflexivity. }
  split; [exact H |].
  exact (proj1 (evaluateRule_degraded timingOut neverParsed unit promptOf true
                  ruleT1021 loginEvent ruleContext H)).
Defined.

Lemma updateRulePerformance_accuracy_witness :
  JsMap.get [("rule_1", ruleT1021)] "rule_1" = Some ruleT1021
  ∧ ∃ rule',
      JsMap.get (Agent.updateRulePerformance "rule_1" false [("rule_1", ruleT1021)])
                "rule_1" = Some rule'
      ∧ accuracy (performance rule') = precision (performance rule').
Proof.
  assert (H : JsMap.get [("rule_1", ruleT1021)] "rule_1" = Some ruleT1021)
    by reflexivity.
  split; [exact H |].
  destruct (updateRulePerformance_accuracy "rule_1" false _ _ H)
    as (rule' & Hget & Heq & _).
  exists rule'. split; [exact Hget | exact Heq].
Defined.

End Witnesses.

(** * Worked instances of the further properties *)

Module Scenario.
Import Demo.

(** A service that already knows alice, under her own id. *)
Definition aliceBaseline : BehavioralBaseline :=
  Behavioral.initialBaseline "alice" "user".

Definition knownService : Behavioral.Service :=
  {| Behavioral.baselines := <["alice" := aliceBaseline]> ∅;
     Behavioral.isInitialized := true |}.

Definition falsePositiveOnRule : AgentFeedback.Feedback :=
  {| AgentFeedback.fb_entityId := Some "alice";
     AgentFeedback.fb_ruleId := Some "rule_1";
     AgentFeedback.fb_isFalsePositive := true |}.

Definition confirmedOnRule : AgentFeedback.Feedback :=
  {| AgentFeedback.fb_entityId := None;
     AgentFeedback.fb_ruleId := Some "rule_1";
     AgentFeedback.fb_isFalsePositive := false |}.

End Scenario.

Section FurtherWitnesses.
Import Demo Scenario.

Lemma processFeedback_false_positive_witness :
  "alice" ≠ ""
  ∧ Behavioral.baselines knownService !! "alice" = Some aliceBaseline
  ∧ ∃ b',
      Behavioral.baselines (Behavioral.processFeedback (Some "alice") true knownService)
      !! "alice" = Some b'
      ∧ 1 # 10 <= confidence b'.
Proof.
  assert (H1 : "alice" ≠ "") by discriminate.
  assert (H2 : Behavioral.baselines knownService !! "alice" = Some aliceBaseline)
    by apply lookup_insert_eq.
  split_and!; [exact H1 | exact H2 |].
  destruct (processFeedback_false_positive "alice" knownService aliceBaseline H1 H2)
    as (b' & Hb' & _ & Hlow & _).
  exists b'. split; [exact Hb' | exact Hlow].
Defined.




Lemma updateBaseline_statistics_nonneg_witness :
  0 <= Behavioral.learningRate behavioralConfig <= 1
  ∧ 0 <= ev_riskScore loginEvent
  ∧ map_Forall (λ _ b, statisticsNonneg b) (Behavioral.baselines emptyService)
  ∧ map_Forall (λ _ b, statisticsNonneg b)
      (Behavioral.baselines
         (Behavioral.updateBaseline behavioralConfig loginEvent emptyService)).
Proof.
  assert (H1 : 0 <= Behavioral.learningRate behavioralConfig <= 1)
    by (split; discriminate).
  assert (H2 : 0 <= ev_riskScore loginEvent) by discriminate.
  assert (H3 : map_Forall (λ _ b, statisticsNonneg b)
                 (Behavioral.baselines emptyService)) by apply map_Forall_empty.
  split; [exact H1 |]. split; [exact H2 |]. split; [exact H3 |].
  exact (updateBaseline_statistics_nonneg behavioralConfig loginEvent emptyService
           H1 H2 H3).
Defined.


Lemma wellKeyed_preserved_witness :
  wellKeyed (Behavioral.baselines knownService)
  ∧ wellKeyed
      (Behavioral.baselines
         (Behavioral.updateBaseline behavioralConfig loginEvent knownService)).
Proof.
  assert (H : wellKeyed (Behavioral.baselines knownService)).
  { apply map_Forall_insert_2; [reflexivity | apply map_Forall_empty]. }
  split; [exact H |].
  exact (proj1 (proj2 (wellKeyed_preserved behavioralConfig loginEvent knownService
                         None false H))).
Defined.


Lemma correlateEvent_candidates_witness :
  ∃ result,
    Graph.correlateEvent graphConfig runQuery graphService hostEvent = Ok result
    ∧ ∀ c, c ∈ Graph.correlations result →
        Graph.minCorrelationStrength graphConfig <= strength c.
Proof.
  eexists. split; [reflexivity |]. intros c Hc.
  destruct (correlateEvent_candidates graphConfig runQuery graphService hostEvent
              _ eq_refl c Hc) as (_ & Hmin & _).
  exact Hmin.
Defined.

Lemma correlateEvent_networkStrength_witness :
  ∃ result,
    Graph.correlateEvent graphConfig runQuery graphService hostEvent = Ok result
    ∧ (Graph.correlations result ≠ [] →
       Graph.minCorrelationStrength graphConfig <= Graph.networkStrength result).
Proof.
  eexists. split; [reflexivity |]. intros Hne.
  destruct (correlateEvent_networkStrength graphConfig runQuery graphService
              hostEvent _ eq_refl) as [_ Hmean].
  exact (proj2 (Hmean Hne)).
Defined.

Lemma correlateEvent_scores_in_unit_witness :
  rowsInUnit runQuery
  ∧ ∃ result,
      Graph.correlateEvent graphConfig runQuery graphService hostEvent = Ok result
      ∧ 0 <= Graph.cr_riskScore result <= 1.
Proof.
  assert (H : rowsInUnit runQuery).
  { intros entityId cutoff rows row. unfold runQuery.
    destruct (String.eqb entityId "B"); intros [= <-] Hrow.
    - apply elem_of_cons in Hrow as [-> |Hrow];
        [simpl; split; split; discriminate |].
      apply elem_of_cons in Hrow as [-> |Hrow];
        [simpl; split; split; discriminate | inversion Hrow].
    - inversion Hrow. }
  split; [exact H |]. eexists. split; [reflexivity |].
  exact (proj1 (proj2 (correlateEvent_scores_in_unit graphConfig runQuery
                         graphService hostEvent _ H eq_refl))).
Defined.

Lemma updateRulePerformance_trend_witness :
  JsMap.get [("rule_1", ruleT1021)] "rule_1" = Some ruleT1021
  ∧ ∃ rule1 rule2,
      JsMap.get (Agent.updateRulePerformance "rule_1" false [("rule_1", ruleT1021)])
                "rule_1" = Some rule1
      ∧ JsMap.get
          (Agent.updateRulePerformance "rule_1" true
             (Agent.updateRulePerformance "rule_1" false [("rule_1", ruleT1021)]))
          "rule_1" = Some rule2
      ∧ accuracy (performance rule2) <= accuracy (performance rule1).
Proof.
  assert (H : JsMap.get [("rule_1", ruleT1021)] "rule_1" = Some ruleT1021)
    by reflexivity.
  split; [exact H |].
  destruct (updateRulePerformance_trend "rule_1" false true _ _ H)
    as (rule1 & rule2 & Hget1 & Hget2 & Hdown & _).
  exists rule1, rule2. split_and!; [exact Hget1 | exact Hget2 | exact (Hdown eq_refl)].
Defined.

Lemma processFeedbacks_counts_witness :
  "rule_1" ≠ ""
  ∧ JsMap.get (Agent.activeRules agentState) "rule_1" = Some ruleT1021
  ∧ (AgentFeedback.processFeedbacks
       [falsePositiveOnRule; confirmedOnRule; falsePositiveOnRule] agentState 0).2
    = 2%nat.
Proof.
  assert (H1 : "rule_1" ≠ "") by discriminate.
  assert (H2 : JsMap.get (Agent.activeRules agentState) "rule_1" = Some ruleT1021)
    by reflexivity.
  split_and!; [exact H1 | exact H2 |].
  exact (proj1 (processFeedbacks_counts
                  [falsePositiveOnRule; confirmedOnRule; falsePositiveOnRule]
                  agentState 0 "rule_1" ruleT1021 H1 H2)).
Defined.

End FurtherWitnesses.
